(** * ExerciseTrack2: the storage layer ([storage.js])

    A shallow embedding of the [Storage] object of [storage.js] and the
    properties of the domain store that the specification states about it.

    Conventions of the embedding.
    - A JavaScript string is a [string] whose characters are the code units
      U+0000 .. U+00FF (Latin-1); [toLowerCase] and [trim] are the
      ECMAScript functions restricted to that range.
    - A JavaScript number is an IEEE 754 binary64 value, Rocq's primitive
      [float]; [===] on numbers is [PrimFloat.eqb].
    - The [miles] argument of [addWorkout] and [updateWorkout] is the value
      the caller passes, a number or a string ([argument]); a number is
      read as such an argument without further notation.
    - [Date.now], [Math.random] and [new Date()] are inputs: an operation
      that uses them takes an [Env] holding what they produced.
    - [localStorage] holds, per key, the array that was last handed to
      [JSON.stringify]; reading a key yields the JSON round trip of that
      array.  The text level ([JSON.stringify] into stored text and
      [JSON.parse] on arbitrary stored text) is modelled separately in
      [Module Raw]. *)

From Stdlib Require Import List String Ascii Bool NArith ZArith Lia.
From Stdlib Require Import Permutation.
From Stdlib Require Import Floats.
Import ListNotations.

Local Open Scope string_scope.
Local Open Scope list_scope.

(** ** Strings *)

(** ECMAScript [WhiteSpace] and [LineTerminator] code points below U+0100:
    TAB, LF, VT, FF, CR, SP and NBSP. *)
Definition isWhiteSpace (c : ascii) : bool :=
  let n := N_of_ascii c in
  (((9 <=? n) && (n <=? 13)) || (n =? 32) || (n =? 160))%N.

(** [String.prototype.toLowerCase] on one Latin-1 code unit: [A-Z] and the
    capital letters U+00C0 .. U+00DE (all but the multiplication sign U+00D7)
    move up by 32. *)
Definition lower_char (c : ascii) : ascii :=
  let n := N_of_ascii c in
  if (((65 <=? n) && (n <=? 90))
      || ((192 <=? n) && (n <=? 222) && negb (n =? 215)))%N
  then ascii_of_N (n + 32) else c.

Fixpoint toLowerCase (s : string) : string :=
  match s with
  | EmptyString => EmptyString
  | String c r => String (lower_char c) (toLowerCase r)
  end.

Fixpoint trimStart (s : string) : string :=
  match s with
  | EmptyString => EmptyString
  | String c r => if isWhiteSpace c then trimStart r else s
  end.

Fixpoint trimEnd (s : string) : string :=
  match s with
  | EmptyString => EmptyString
  | String c r =>
      match trimEnd r with
      | EmptyString => if isWhiteSpace c then EmptyString else String c EmptyString
      | r' => String c r'
      end
  end.

(** [String.prototype.trim]. *)
Definition trim (s : string) : string := trimEnd (trimStart s).

(** ** Numbers *)

(** What a [miles] property can hold: a number, or [null] (what
    [JSON.stringify] writes for [NaN] and the infinities). *)
Inductive jsnum : Type :=
| Num (f : float)
| Null.

(** [parseFloat(x)] for a number [x]: [ToString(x)] read back as a decimal
    literal.  Number-to-string conversion round-trips, so the result is [x],
    except that [-0] prints as ["0"] and comes back as [+0]; [NaN] stays
    [NaN] and the infinities stay themselves. *)
Definition parseFloat_number (x : float) : float :=
  if PrimFloat.is_zero x then PrimFloat.zero else x.

(** [DecimalDigit]. *)
Definition isDecimalDigit (c : ascii) : bool :=
  let n := N_of_ascii c in ((48 <=? n) && (n <=? 57))%N.

(** The leading [DecimalDigits] of a string, read as a decimal numeral onto
    [acc]: the value, how many digits were read, and what follows them. *)
Fixpoint DecimalDigits (s : string) (acc : Z) (count : Z) : Z * Z * string :=
  match s with
  | String c r =>
      if isDecimalDigit c
      then DecimalDigits r (10 * acc + Z.of_N (N_of_ascii c - 48)) (count + 1)
      else (acc, count, s)
  | EmptyString => (acc, count, s)
  end.

(** The value of the [ExponentPart] a string starts with ([e] or [E], an
    optional sign, and at least one digit), or 0 when it starts with none. *)
Definition ExponentPart (s : string) : Z :=
  match s with
  | String c r =>
      if (c =? "e")%char || (c =? "E")%char
      then
        match r with
        | String sign r' =>
            if (sign =? "+")%char || (sign =? "-")%char
            then
              let '(n, _, _) := DecimalDigits r' 0 0 in
              if (sign =? "-")%char then (- n)%Z else n
            else let '(n, _, _) := DecimalDigits r 0 0 in n
        | EmptyString => 0%Z
        end
      else 0%Z
  | EmptyString => 0%Z
  end.

(** The Number value of [m * 10^e] for a mantissa [m > 0]: the binary64
    value nearest to it, ties to even.  (ECMAScript lets an engine approximate
    a literal of more than 20 significant digits; the engines round every
    literal exactly, as is done here.)  [m * 10^e] is [(m * 5^e) * 2^e],
    rounded once; for [e < 0] the quotient of [m * 2^e] by [5^-e] is rounded
    once.  A value of at least [2^1024] is an infinity and one below
    [2^-1075] a zero: [m] is at least [2^(bits-1)] and below [2^bits], and
    [10^|e|] is at least [2^(3|e|)]. *)
Definition RoundMV (neg : bool) (m : positive) (e : Z) : spec_float :=
  let bits := Z.pos (digits2_pos m) in
  match e with
  | Z0 => binary_round prec emax neg m 0
  | Zpos k =>
      if (1024 <=? bits - 1 + 3 * e)%Z then S754_infinity neg
      else binary_round prec emax neg (m * 5 ^ k) e
  | Zneg k =>
      if (bits + 3 * e <=? -1075)%Z then S754_zero neg
      else
        let '(q, e', l) :=
          SFdiv_core_binary prec emax (Z.pos m) e (Z.pos (5 ^ k)) 0 in
        binary_round_aux prec emax neg q e' l
  end.

(** The longest [StrUnsignedDecimalLiteral] a string starts with, as a
    number: [Infinity], or digits with an optional fraction and exponent
    ([12], [12.], [12.5], [.5], each with or without [e3]); [NaN] when the
    string starts with none. *)
Definition StrUnsignedDecimalLiteral (neg : bool) (s : string) : float :=
  if prefix "Infinity" s then (if neg then neg_infinity else infinity)
  else
    let '(int, int_count, rest) := DecimalDigits s 0 0 in
    let '(m, frac_count, rest') :=
      match rest with
      | String "." r => DecimalDigits r int 0
      | _ => (int, 0%Z, rest)
      end in
    if (int_count + frac_count =? 0)%Z then nan
    else
      match m with
      | Zpos p => SF2Prim (RoundMV neg p (ExponentPart rest' - frac_count))
      | _ => if neg then neg_zero else zero
      end.

(** [parseFloat(s)] for a string [s]: leading white space is skipped, then
    the longest prefix that is a [StrDecimalLiteral] is read; what follows it
    is ignored. *)
Definition parseFloat_string (s : string) : float :=
  match trimStart s with
  | String "+" r => StrUnsignedDecimalLiteral false r
  | String "-" r => StrUnsignedDecimalLiteral true r
  | r => StrUnsignedDecimalLiteral false r
  end.

(** What a caller passes as [miles]: a number, as the documentation of
    [addWorkout] asks for, or a string such as the value of a form field,
    which [parseFloat] is there to convert. *)
Inductive argument : Type :=
| ANumber (x : float)
| AString (s : string).

Coercion ANumber : float >-> argument.

(** [parseFloat(miles)]. *)
Definition parseFloat (miles : argument) : float :=
  match miles with
  | ANumber x => parseFloat_number x
  | AString s => parseFloat_string s
  end.

(** A number after [JSON.stringify] and [JSON.parse]: [NaN] and the infinities
    are written as [null], [-0] as [0], a finite number as itself. *)
Definition JSON_number (v : jsnum) : jsnum :=
  match v with
  | Num f =>
      if PrimFloat.is_finite f
      then Num (if PrimFloat.is_zero f then PrimFloat.zero else f)
      else Null
  | Null => Null
  end.

(** [v === x] for a stored [miles] value [v] and a number [x]. *)
Definition strict_eq_num (v : jsnum) (x : float) : bool :=
  match v with
  | Num f => PrimFloat.eqb f x
  | Null => false
  end.

(** [v === miles] for a stored [miles] value [v] and an argument: a number
    or [null] is never strictly equal to a string. *)
Definition strict_eq (v : jsnum) (miles : argument) : bool :=
  match miles with
  | ANumber x => strict_eq_num v x
  | AString _ => false
  end.

(** [ToNumber], as [total + workout.miles] applies it: [null] counts as [+0]. *)
Definition ToNumber (v : jsnum) : float :=
  match v with
  | Num f => f
  | Null => PrimFloat.zero
  end.

(** ** Entities *)

Module Shoe.
Record t : Type := make
  { id : string;
    name : string;
    retired : bool;
    imageData : option string;     (* [None] is [null] *)
    createdAt : string }.

(** [shoe.retired = v]. *)
Definition set_retired (v : bool) (s : t) : t :=
  make (id s) (name s) v (imageData s) (createdAt s).
End Shoe.

Module Workout.
Record t : Type := make
  { id : string;
    shoeId : string;
    miles : jsnum;
    date : string;
    createdAt : string;
    updatedAt : option string }.   (* [None]: the property is absent *)

(** The object as it comes back from [JSON.parse (JSON.stringify w)]. *)
Definition JSON_roundtrip (w : t) : t :=
  make (id w) (shoeId w) (JSON_number (miles w)) (date w) (createdAt w) (updatedAt w).
End Workout.

(** ** Persistent storage *)

(** The three collections, each absent ([None], [getItem] returns [null]) or
    holding the array that was last stringified into it. *)
Record localStorage : Type := mkStorage
  { shoes_item : option (list Shoe.t);
    workouts_item : option (list Workout.t);
    shoe_order_item : option (list string) }.

(** [Storage.KEYS], indexed by the type of the collection kept under the key. *)
Inductive KEYS : Type -> Type :=
| SHOES : KEYS (list Shoe.t)
| WORKOUTS : KEYS (list Workout.t)
| SHOE_ORDER : KEYS (list string).

(** What the environment supplies to an operation that creates or stamps a
    record: the string that [generateId()] builds from [Date.now()] and
    [Math.random()], and the string that [new Date().toISOString()] returns. *)
Record Env : Type := mkEnv
  { generateId : string;
    toISOString : string }.

(** ** Computations: state and exceptions *)

(** [new Error(message)]. *)
Inductive exn : Type :=
| Error (message : string).

(** How a call ends, and the storage it leaves. *)
Inductive completion (A : Type) : Type :=
| Normal (value : A) (ls : localStorage)
| Throw (e : exn) (ls : localStorage).
Arguments Normal {A} value ls.
Arguments Throw {A} e ls.

Definition js (A : Type) : Type := localStorage -> completion A.

Definition ret {A} (a : A) : js A := fun ls => Normal a ls.

Definition throw {A} (e : exn) : js A := fun ls => Throw e ls.

Definition bind {A B} (m : js A) (k : A -> js B) : js B :=
  fun ls =>
    match m ls with
    | Normal a ls' => k a ls'
    | Throw e ls' => Throw e ls'
    end.

Declare Scope js_scope.
Delimit Scope js_scope with js.
Notation "x <- m ;; k" := (bind m (fun x => k))
  (at level 61, m at next level, right associativity) : js_scope.
Notation "m ;;; k" := (bind m (fun _ => k))
  (at level 61, right associativity) : js_scope.
Local Open Scope js_scope.

(** The storage a computation leaves behind, however it completes. *)
Definition final {A} (c : completion A) : localStorage :=
  match c with
  | Normal _ ls => ls
  | Throw _ ls => ls
  end.

(** [localStorage.getItem(key)] followed by [JSON.parse]: [None] when the key
    is absent, else the stored array after its JSON round trip. *)
Definition getItem {A} (key : KEYS A) : js (option A) :=
  fun ls =>
    Normal
      (match key in KEYS T return option T with
       | SHOES => shoes_item ls
       | WORKOUTS => option_map (map Workout.JSON_roundtrip) (workouts_item ls)
       | SHOE_ORDER => shoe_order_item ls
       end) ls.

(** [localStorage.setItem(key, JSON.stringify(value))]. *)
Definition setItem {A} (key : KEYS A) : A -> js unit :=
  match key in KEYS T return T -> js unit with
  | SHOES => fun v ls =>
      Normal tt (mkStorage (Some v) (workouts_item ls) (shoe_order_item ls))
  | WORKOUTS => fun v ls =>
      Normal tt (mkStorage (shoes_item ls) (Some v) (shoe_order_item ls))
  | SHOE_ORDER => fun v ls =>
      Normal tt (mkStorage (shoes_item ls) (workouts_item ls) (Some v))
  end.

(** [localStorage.removeItem(key)]. *)
Definition removeItem {A} (key : KEYS A) : js unit :=
  fun ls =>
    Normal tt
      (match key with
       | SHOES => mkStorage None (workouts_item ls) (shoe_order_item ls)
       | WORKOUTS => mkStorage (shoes_item ls) None (shoe_order_item ls)
       | SHOE_ORDER => mkStorage (shoes_item ls) (workouts_item ls) None
       end).

(** ** Arrays and objects *)

(** The effect on array [l] of mutating, through the reference that
    [l.find(p)] returned, the first element that satisfies [p]. *)
Fixpoint assign_found {A} (p : A -> bool) (f : A -> A) (l : list A) : list A :=
  match l with
  | [] => []
  | x :: r => if p x then f x :: r else x :: assign_found p f r
  end.

(** *** The lookup object of [getShoesOrdered]

    [shoeMap] starts as [{}]: an ordinary object whose prototype is
    [Object.prototype].  Its own properties are kept in creation order; its
    prototype is tracked because [shoeMap["__proto__"] = shoe] replaces it. *)

(** The values [shoeMap[id]] can evaluate to. *)
Inductive value : Type :=
| VShoe (s : Shoe.t)
| VString (s : string)
| VBool (b : bool)
| VNull
| VUndefined
| VObjectPrototype             (* [Object.prototype] itself *)
| VBuiltin (name : string).    (* the function [Object.prototype[name]] *)

Definition ToBoolean (v : value) : bool :=
  match v with
  | VShoe _ => true
  | VString s => negb (s =? "")
  | VBool b => b
  | VNull => false
  | VUndefined => false
  | VObjectPrototype => true
  | VBuiltin _ => true
  end.

Record object : Type := mkObject
  { own : list (string * Shoe.t);
    prototype : option Shoe.t }.   (* [None]: [Object.prototype] *)

Definition empty_object : object := mkObject [] None.

(** The function-valued properties of [Object.prototype]. *)
Definition Object_prototype_functions : list string :=
  [ "constructor"; "hasOwnProperty"; "isPrototypeOf"; "propertyIsEnumerable";
    "toLocaleString"; "toString"; "valueOf";
    "__defineGetter__"; "__defineSetter__"; "__lookupGetter__"; "__lookupSetter__" ].

Definition Object_prototype_get (k : string) : value :=
  if existsb (String.eqb k) Object_prototype_functions then VBuiltin k else VUndefined.

(** The own properties of a shoe object. *)
Definition shoe_get (s : Shoe.t) (k : string) : option value :=
  if k =? "id" then Some (VString (Shoe.id s))
  else if k =? "name" then Some (VString (Shoe.name s))
  else if k =? "retired" then Some (VBool (Shoe.retired s))
  else if k =? "imageData" then
    Some (match Shoe.imageData s with Some d => VString d | None => VNull end)
  else if k =? "createdAt" then Some (VString (Shoe.createdAt s))
  else None.

Fixpoint own_get (k : string) (ps : list (string * Shoe.t)) : option Shoe.t :=
  match ps with
  | [] => None
  | (k', v) :: r => if k' =? k then Some v else own_get k r
  end.

(** [o[k]]: an own property, else what the prototype chain gives. *)
Definition obj_get (o : object) (k : string) : value :=
  match own_get k (own o) with
  | Some s => VShoe s
  | None =>
      if k =? "__proto__" then
        match prototype o with
        | Some s => VShoe s
        | None => VObjectPrototype
        end
      else
        match prototype o with
        | Some s =>
            match shoe_get s k with
            | Some v => v
            | None => Object_prototype_get k
            end
        | None => Object_prototype_get k
        end
  end.

Fixpoint own_set (k : string) (v : Shoe.t) (ps : list (string * Shoe.t))
  : list (string * Shoe.t) :=
  match ps with
  | [] => [(k, v)]
  | (k', v') :: r => if k' =? k then (k', v) :: r else (k', v') :: own_set k v r
  end.

(** [o[k] = shoe]: creates or overwrites an own property, except for the key
    ["__proto__"], which sets the prototype. *)
Definition obj_set (o : object) (k : string) (v : Shoe.t) : object :=
  if k =? "__proto__" then mkObject (own o) (Some v)
  else mkObject (own_set k v (own o)) (prototype o).

(** [delete o[k]]. *)
Definition obj_delete (o : object) (k : string) : object :=
  mkObject (filter (fun p => negb (fst p =? k)) (own o)) (prototype o).

Definition digit_value (c : ascii) : option N :=
  let n := N_of_ascii c in
  if ((48 <=? n) && (n <=? 57))%N then Some (n - 48)%N else None.

Fixpoint decimal (acc : N) (s : string) : option N :=
  match s with
  | EmptyString => Some acc
  | String c r =>
      match digit_value c with
      | Some d => decimal (10 * acc + d) r
      | None => None
      end
  end.

(** The array index a property key denotes, if any: a canonical decimal
    numeral below 2^32 - 1. *)
Definition array_index (k : string) : option N :=
  match k with
  | EmptyString => None
  | String c r =>
      if (c =? "0")%char && negb (r =? "") then None
      else if Nat.ltb 10 (String.length k) then None
      else match decimal 0 k with
           | Some n => if (n <? 4294967295)%N then Some n else None
           | None => None
           end
  end.

Fixpoint insert_by_index {A} (n : N) (v : A) (l : list (N * A)) : list (N * A) :=
  match l with
  | [] => [(n, v)]
  | (m, w) :: r => if (n <? m)%N then (n, v) :: l else (m, w) :: insert_by_index n v r
  end.

(** The own properties whose key is an array index, in ascending index order. *)
Fixpoint indexed {A} (ps : list (string * A)) : list (N * A) :=
  match ps with
  | [] => []
  | (k, v) :: r =>
      match array_index k with
      | Some n => insert_by_index n v (indexed r)
      | None => indexed r
      end
  end.

Definition is_index (k : string) : bool :=
  match array_index k with Some _ => true | None => false end.

(** [Object.values(o)]: array-index keys first, ascending, then the other
    keys in creation order. *)
Definition Object_values (o : object) : list Shoe.t :=
  map snd (indexed (own o))
  ++ map snd (filter (fun p => negb (is_index (fst p))) (own o)).

(** ** The [Storage] object *)

Module Storage.

(** [return data ? JSON.parse(data) : []]. *)
Definition getShoes : js (list Shoe.t) :=
  data <- getItem SHOES ;;
  ret (match data with Some shoes => shoes | None => [] end).

Definition saveShoes (shoes : list Shoe.t) : js unit :=
  setItem SHOES shoes.

(** [shoes.find(shoe => shoe.id === id) || null]. *)
Definition getShoeById (id : string) : js (option Shoe.t) :=
  shoes <- getShoes ;;
  ret (find (fun shoe => Shoe.id shoe =? id) shoes).

(** The stored order if there is one, else [shoes.map(s => s.id)]. *)
Definition getShoeOrder : js (list string) :=
  data <- getItem SHOE_ORDER ;;
  match data with
  | Some order => ret order
  | None =>
      shoes <- getShoes ;;
      ret (map Shoe.id shoes)
  end.

Definition saveShoeOrder (order : list string) : js unit :=
  setItem SHOE_ORDER order.

(** The duplicate test compares [name] as given; the new shoe is stored
    under [name.trim()].  The shoes are saved before the order is read. *)
Definition addShoe (e : Env) (name : string) (imageData : option string)
  : js Shoe.t :=
  shoes <- getShoes ;;
  if existsb (fun shoe => toLowerCase (Shoe.name shoe) =? toLowerCase name) shoes
  then throw (Error "A shoe with this name already exists")
  else
    let newShoe :=
      Shoe.make (generateId e) (trim name) false imageData (toISOString e) in
    saveShoes (shoes ++ [newShoe]) ;;;
    order <- getShoeOrder ;;
    saveShoeOrder (order ++ [Shoe.id newShoe]) ;;;
    ret newShoe.

(** [shoe.retired = true] on the object [find] returned, then
    [saveShoes(shoes)]; nothing is written when [find] returns nothing. *)
Definition retireShoe (id : string) : js unit :=
  shoes <- getShoes ;;
  match find (fun s => Shoe.id s =? id) shoes with
  | Some _ =>
      saveShoes
        (assign_found (fun s => Shoe.id s =? id) (Shoe.set_retired true) shoes)
  | None => ret tt
  end.

Definition getWorkouts : js (list Workout.t) :=
  data <- getItem WORKOUTS ;;
  ret (match data with Some workouts => workouts | None => [] end).

Definition saveWorkouts (workouts : list Workout.t) : js unit :=
  setItem WORKOUTS workouts.

(** Returns [false] before any write when a workout has [shoeId === id]. *)
Definition deleteShoe (id : string) : js bool :=
  workouts <- getWorkouts ;;
  let hasWorkouts := existsb (fun w => Workout.shoeId w =? id) workouts in
  if hasWorkouts then ret false
  else
    shoes <- getShoes ;;
    let filtered := filter (fun s => negb (Shoe.id s =? id)) shoes in
    saveShoes filtered ;;;
    order <- getShoeOrder ;;
    let newOrder := filter (fun shoeId => negb (shoeId =? id)) order in
    saveShoeOrder newOrder ;;;
    ret true.

(** [shoeMap] is filled from the shoes; each id of the order whose lookup
    is truthy pushes what the lookup gives and deletes the own property;
    [Object.values(shoeMap)] supplies the rest. *)
Definition getShoesOrdered : js (list value) :=
  shoes <- getShoes ;;
  order <- getShoeOrder ;;
  let shoeMap :=
    fold_left (fun m shoe => obj_set m (Shoe.id shoe) shoe) shoes empty_object in
  let '(ordered, shoeMap) :=
    fold_left
      (fun state id =>
         let '(ordered, m) := state in
         if ToBoolean (obj_get m id)
         then (ordered ++ [obj_get m id], obj_delete m id)
         else (ordered, m))
      order ([], shoeMap) in
  ret (ordered ++ map VShoe (Object_values shoeMap)).

Definition getWorkoutById (id : string) : js (option Workout.t) :=
  workouts <- getWorkouts ;;
  ret (find (fun workout => Workout.id workout =? id) workouts).

(** [isDuplicate] is computed on the workouts as read, with [w.miles === miles]
    on the argument itself; the stored [miles] is [parseFloat(miles)]. *)
Definition addWorkout (e : Env) (shoeId : string) (miles : argument) (date : string)
  : js (Workout.t * bool) :=
  workouts <- getWorkouts ;;
  let isDuplicate :=
    existsb
      (fun w =>
         (Workout.shoeId w =? shoeId)
         && (Workout.date w =? date)
         && strict_eq (Workout.miles w) miles)
      workouts in
  let newWorkout :=
    Workout.make (generateId e) shoeId (Num (parseFloat miles)) date
      (toISOString e) None in
  saveWorkouts (workouts ++ [newWorkout]) ;;;
  ret (newWorkout, isDuplicate).

(** Assigns [shoeId], [miles], [date] and [updatedAt] on the object [find]
    returned, then [saveWorkouts(workouts)]. *)
Definition updateWorkout (e : Env) (id shoeId : string) (miles : argument)
  (date : string) : js unit :=
  workouts <- getWorkouts ;;
  match find (fun w => Workout.id w =? id) workouts with
  | Some _ =>
      saveWorkouts
        (assign_found (fun w => Workout.id w =? id)
           (fun workout =>
              Workout.make (Workout.id workout) shoeId (Num (parseFloat miles))
                date (Workout.createdAt workout) (Some (toISOString e)))
           workouts)
  | None => ret tt
  end.

Definition deleteWorkout (id : string) : js unit :=
  workouts <- getWorkouts ;;
  let filtered := filter (fun w => negb (Workout.id w =? id)) workouts in
  saveWorkouts filtered.

Definition getWorkoutsByShoe (shoeId : string) : js (list Workout.t) :=
  workouts <- getWorkouts ;;
  ret (filter (fun w => Workout.shoeId w =? shoeId) workouts).

(** [workouts.reduce((total, workout) => total + workout.miles, 0)]. *)
Definition getTotalMiles (shoeId : string) : js float :=
  workouts <- getWorkoutsByShoe shoeId ;;
  ret (fold_left
         (fun total workout => PrimFloat.add total (ToNumber (Workout.miles workout)))
         workouts PrimFloat.zero).

Definition clearAll : js unit :=
  removeItem SHOES ;;;
  removeItem WORKOUTS ;;;
  removeItem SHOE_ORDER.

End Storage.

(** ** What the read operations return *)

(** The value of [getShoes()] (the specification's [listShoes]). *)
Definition listShoes (ls : localStorage) : list Shoe.t :=
  match shoes_item ls with Some shoes => shoes | None => [] end.

(** The value of [getWorkouts()] (the specification's [listWorkouts]). *)
Definition listWorkouts (ls : localStorage) : list Workout.t :=
  match workouts_item ls with
  | Some workouts => map Workout.JSON_roundtrip workouts
  | None => []
  end.

(** The value of [getShoeOrder()] (the specification's [getOrder]). *)
Definition getOrder (ls : localStorage) : list string :=
  match shoe_order_item ls with
  | Some order => order
  | None => map Shoe.id (listShoes ls)
  end.

(** Left-to-right sum of a list of numbers, starting from [+0]. *)
Definition sum_miles (l : list jsnum) : float :=
  fold_left (fun total m => PrimFloat.add total (ToNumber m)) l PrimFloat.zero.

(** ** The mutating operations of the store *)

(** The operations of section 4.1 of the specification that write. *)
Inductive operation : Type :=
| AddShoe (e : Env) (name : string) (imageData : option string)
| RetireShoe (id : string)
| DeleteShoe (id : string)
| SetOrder (order : list string)
| AddWorkout (e : Env) (shoeId : string) (miles : argument) (date : string)
| UpdateWorkout (e : Env) (id shoeId : string) (miles : argument) (date : string)
| DeleteWorkout (id : string)
| ClearAll.

(** The storage after an operation, whether it returned or threw. *)
Definition run (o : operation) (ls : localStorage) : localStorage :=
  match o with
  | AddShoe e name imageData => final (Storage.addShoe e name imageData ls)
  | RetireShoe id => final (Storage.retireShoe id ls)
  | DeleteShoe id => final (Storage.deleteShoe id ls)
  | SetOrder order => final (Storage.saveShoeOrder order ls)
  | AddWorkout e shoeId miles date => final (Storage.addWorkout e shoeId miles date ls)
  | UpdateWorkout e id shoeId miles date =>
      final (Storage.updateWorkout e id shoeId miles date ls)
  | DeleteWorkout id => final (Storage.deleteWorkout id ls)
  | ClearAll => final (Storage.clearAll ls)
  end.

(** Nothing stored: a fresh browser profile, or the state after [clearAll]. *)
Definition empty_storage : localStorage := mkStorage None None None.

(** The states the operations lead to from an empty store. *)
Inductive reachable : localStorage -> Prop :=
| reachable_empty : reachable empty_storage
| reachable_run o ls : reachable ls -> reachable (run o ls).

(** ** Notions used in the statements *)

(** The object [addWorkout] builds. *)
Definition newWorkout (e : Env) (shoeId : string) (miles : argument) (date : string)
  : Workout.t :=
  Workout.make (generateId e) shoeId (Num (parseFloat miles)) date (toISOString e) None.

(** The test of [addWorkout]'s [some] callback. *)
Definition same_workout (shoeId : string) (miles : argument) (date : string)
  (w : Workout.t) : bool :=
  (Workout.shoeId w =? shoeId) && (Workout.date w =? date)
  && strict_eq (Workout.miles w) miles.

(** The generated id of [addShoe] is not the id of a current shoe. *)
Definition fresh_id (o : operation) (ls : localStorage) : Prop :=
  match o with
  | AddShoe e _ _ => ~ In (generateId e) (map Shoe.id (listShoes ls))
  | _ => True
  end.

(** No two shoes have names that are equal ignoring case. *)
Definition names_unique (ls : localStorage) : Prop :=
  NoDup (map (fun s => toLowerCase (Shoe.name s)) (listShoes ls)).

(** The order read by [getShoeOrder] holds every current shoe id exactly once
    and no id besides. *)
Definition order_healed (ls : localStorage) : Prop :=
  (forall s, In s (listShoes ls) ->
             count_occ string_dec (getOrder ls) (Shoe.id s) = 1%nat)
  /\ (forall i, In i (getOrder ls) -> In i (map Shoe.id (listShoes ls))).

(** The same, with the shoe ids pairwise distinct. *)
Definition order_exact (ls : localStorage) : Prop :=
  NoDup (map Shoe.id (listShoes ls))
  /\ Permutation (map Shoe.id (listShoes ls)) (getOrder ls).

(** What an operation must satisfy for the order to stay exact: [addShoe] is
    given a fresh id and finds an order stored; [saveShoeOrder] is given a
    permutation of the current ids. *)
Definition keeps_order (o : operation) (ls : localStorage) : Prop :=
  match o with
  | AddShoe e _ _ =>
      ~ In (generateId e) (map Shoe.id (listShoes ls))
      /\ shoe_order_item ls <> None
  | SetOrder order => Permutation (map Shoe.id (listShoes ls)) order
  | _ => True
  end.

(** The property [shoeMap[shoe.id] = shoe] creates. *)
Definition entry (s : Shoe.t) : string * Shoe.t := (Shoe.id s, s).

(** A key that [Object.prototype] does not answer to. *)
Definition plain_key (k : string) : Prop :=
  k <> "__proto__" /\ ~ In k Object_prototype_functions.

(** The first occurrence of each element, in order. *)
Fixpoint first_occurrences (l : list string) : list string :=
  match l with
  | [] => []
  | i :: r => i :: filter (fun j => negb (j =? i)) (first_occurrences r)
  end.

(** The shoe with the given id, first match, as a list of at most one. *)
Definition found (shoes : list Shoe.t) (i : string) : list Shoe.t :=
  match find (fun s => Shoe.id s =? i) shoes with
  | Some s => [s]
  | None => []
  end.

(** The body of the [order.forEach] loop. *)
Definition place_step (state : list value * object) (id : string) : list value * object :=
  let '(ordered, m) := state in
  if ToBoolean (obj_get m id)
  then (ordered ++ [obj_get m id], obj_delete m id)
  else (ordered, m).

(** The loop on a map without inherited hits: the shoes placed, and the
    properties left. *)
Fixpoint place (order : list string) (props : list (string * Shoe.t))
  : list Shoe.t * list (string * Shoe.t) :=
  match order with
  | [] => ([], props)
  | i :: r =>
      match own_get i props with
      | Some s =>
          let '(p, o) := place r (filter (fun e => negb (fst e =? i)) props) in
          (s :: p, o)
      | None => place r props
      end
  end.

(** The shoe's id does not occur in the order list. *)
Definition unlisted (order : list string) (s : Shoe.t) : bool :=
  negb (existsb (String.eqb (Shoe.id s)) order).

(** Every stored shoe name is free of surrounding white space. *)
Definition names_trimmed (ls : localStorage) : Prop :=
  forall s, In s (listShoes ls) -> trim (Shoe.name s) = Shoe.name s.

(** Every workout references a shoe that exists. *)
Definition references_exist (ls : localStorage) : Prop :=
  forall w, In w (listWorkouts ls) -> In (Workout.shoeId w) (map Shoe.id (listShoes ls)).

(** The shoe an operation makes a workout reference exists. *)
Definition references_shoe (o : operation) (ls : localStorage) : Prop :=
  match o with
  | AddWorkout _ shoeId _ _ => In shoeId (map Shoe.id (listShoes ls))
  | UpdateWorkout _ _ shoeId _ _ => In shoeId (map Shoe.id (listShoes ls))
  | _ => True
  end.

(** The string does not start with white space. *)
Definition starts_clean (s : string) : Prop :=
  match s with
  | EmptyString => True
  | String c _ => isWhiteSpace c = false
  end.

(** The id [addWorkout] generates is not the id of a current workout. *)
Definition fresh_workout_id (o : operation) (ls : localStorage) : Prop :=
  match o with
  | AddWorkout e _ _ _ => ~ In (generateId e) (map Workout.id (listWorkouts ls))
  | _ => True
  end.

(** * The text level: what is read back from arbitrary stored text (C5)

    [localStorage] maps key strings to strings.  The read operations hand
    the stored text to [JSON.parse] and return whatever it yields; nothing
    in [storage.js] catches an exception or inspects the shape of the parsed
    value. *)

Module Raw.

(** JavaScript values as far as [JSON.parse] and the read operations produce
    them.  A string is its sequence of code units; a number is kept as its
    literal. *)
#[local] Set Warnings "-register-all".
Inductive value : Type :=
| VUndefined
| VNull
| VBool (b : bool)
| VNumber (literal : string)
| VString (units : list N)
| VArray (items : list value)
| VObject (members : list (list N * value)).

Inductive exn : Type :=
| SyntaxError
| TypeError.

Inductive outcome (A : Type) : Type :=
| Return (a : A)
| Throw (e : exn).
Arguments Return {A} a.
Arguments Throw {A} e.

(** ** [JSON.parse] *)

(** The result of reading a prefix of the text. *)
Inductive parsed (A : Type) : Type :=
| Parsed (a : A) (rest : string)
| Invalid
| OutOfFuel.
Arguments Parsed {A} a rest.
Arguments Invalid {A}.
Arguments OutOfFuel {A}.

Definition parsed_map {A B} (f : A -> B) (p : parsed A) : parsed B :=
  match p with
  | Parsed a rest => Parsed (f a) rest
  | Invalid => Invalid
  | OutOfFuel => OutOfFuel
  end.

(** The double quote character. *)
Definition quote : ascii := ascii_of_N 34.

(** JSON white space: space, tab, line feed, carriage return. *)
Definition is_ws (c : ascii) : bool :=
  let n := N_of_ascii c in ((n =? 32) || (n =? 9) || (n =? 10) || (n =? 13))%N.

Fixpoint skip_ws (s : string) : string :=
  match s with
  | EmptyString => EmptyString
  | String c r => if is_ws c then skip_ws r else s
  end.

(** [s] starts with [word]: what follows it. *)
Fixpoint after (word s : string) : option string :=
  match word, s with
  | EmptyString, _ => Some s
  | String a w, String b r => if (a =? b)%char then after w r else None
  | String _ _, EmptyString => None
  end.

(** [s] starts, after white space, with the character [c]: what follows it. *)
Definition token (c : ascii) (s : string) : option string :=
  after (String c EmptyString) (skip_ws s).

Definition is_digit (c : ascii) : bool :=
  let n := N_of_ascii c in ((48 <=? n) && (n <=? 57))%N.

(** The leading digits of a text, and what follows them. *)
Fixpoint digits (s : string) : string * string :=
  match s with
  | EmptyString => (EmptyString, EmptyString)
  | String c r =>
      if is_digit c then let '(ds, rest) := digits r in (String c ds, rest)
      else (EmptyString, s)
  end.

(** At least one digit. *)
Definition digits1 (s : string) : parsed string :=
  match digits s with
  | (EmptyString, _) => Invalid
  | (ds, rest) => Parsed ds rest
  end.

(** [int]: [0], or a non-zero digit followed by digits. *)
Definition number_int (s : string) : parsed string :=
  match s with
  | EmptyString => Invalid
  | String c r =>
      if (c =? "0")%char then Parsed "0" r
      else if is_digit c then let '(ds, rest) := digits r in Parsed (String c ds) rest
      else Invalid
  end.

(** [frac]: nothing, or a point and at least one digit. *)
Definition number_frac (s : string) : parsed string :=
  match after "." s with
  | Some r => parsed_map (String ".") (digits1 r)
  | None => Parsed "" s
  end.

(** [exp]: nothing, or [e] or [E], an optional sign, and at least one digit. *)
Definition number_exp (s : string) : parsed string :=
  match s with
  | String c r =>
      if ((c =? "e") || (c =? "E"))%char then
        match r with
        | String sign r' =>
            if ((sign =? "+") || (sign =? "-"))%char
            then parsed_map (fun ds => String c (String sign ds)) (digits1 r')
            else parsed_map (String c) (digits1 r)
        | EmptyString => Invalid
        end
      else Parsed "" s
  | EmptyString => Parsed "" s
  end.

(** A number literal: optional minus, [int], [frac], [exp]. *)
Definition number (s : string) : parsed string :=
  let '(sign, s0) :=
    match after "-" s with
    | Some r => ("-", r)
    | None => ("", s)
    end in
  match number_int s0 with
  | Parsed i s1 =>
      match number_frac s1 with
      | Parsed f s2 =>
          match number_exp s2 with
          | Parsed x s3 => Parsed (sign ++ i ++ f ++ x)%string s3
          | other => other
          end
      | other => other
      end
  | other => other
  end.

Definition hex_value (c : ascii) : option N :=
  let n := N_of_ascii c in
  if ((48 <=? n) && (n <=? 57))%N then Some (n - 48)%N
  else if ((65 <=? n) && (n <=? 70))%N then Some (n - 55)%N
  else if ((97 <=? n) && (n <=? 102))%N then Some (n - 87)%N
  else None.

Definition hex4 (a b c d : ascii) : option N :=
  match hex_value a, hex_value b, hex_value c, hex_value d with
  | Some x, Some y, Some z, Some w => Some (((x * 16 + y) * 16 + z) * 16 + w)%N
  | _, _, _, _ => None
  end.

(** The code unit a one-character escape stands for. *)
Definition escape (c : ascii) : option N :=
  if (c =? quote)%char then Some 34%N
  else if (c =? "\")%char then Some 92%N
  else if (c =? "/")%char then Some 47%N
  else if (c =? "b")%char then Some 8%N
  else if (c =? "f")%char then Some 12%N
  else if (c =? "n")%char then Some 10%N
  else if (c =? "r")%char then Some 13%N
  else if (c =? "t")%char then Some 9%N
  else None.

(** The characters of a string literal after its opening quote, up to and
    including the closing quote. *)
Fixpoint string_body (s : string) : parsed (list N) :=
  match s with
  | EmptyString => Invalid
  | String c r =>
      if (c =? quote)%char then Parsed [] r
      else if (c =? "\")%char then
        match r with
        | EmptyString => Invalid
        | String e r1 =>
            match escape e with
            | Some u => parsed_map (cons u) (string_body r1)
            | None =>
                if (e =? "u")%char then
                  match r1 with
                  | String h1 (String h2 (String h3 (String h4 r2))) =>
                      match hex4 h1 h2 h3 h4 with
                      | Some u => parsed_map (cons u) (string_body r2)
                      | None => Invalid
                      end
                  | _ => Invalid
                  end
                else Invalid
            end
        end
      else if (N_of_ascii c <? 32)%N then Invalid
      else parsed_map (cons (N_of_ascii c)) (string_body r)
  end.

Definition keyword (word : string) (v : value) (s : string) : parsed value :=
  match after word s with
  | Some rest => Parsed v rest
  | None => Invalid
  end.

(** A JSON value, the elements of an array after its first element's
    position, and the members of an object likewise.  [fuel] bounds the
    nesting of calls. *)
Fixpoint parse_value (fuel : nat) (s : string) : parsed value :=
  match fuel with
  | O => OutOfFuel
  | S fuel' =>
      match skip_ws s with
      | EmptyString => Invalid
      | String c r =>
          if (c =? "{")%char then
            match token "}" r with
            | Some r' => Parsed (VObject []) r'
            | None => parse_members fuel' r []
            end
          else if (c =? "[")%char then
            match token "]" r with
            | Some r' => Parsed (VArray []) r'
            | None => parse_elements fuel' r []
            end
          else if (c =? quote)%char then parsed_map VString (string_body r)
          else if (c =? "t")%char then keyword "rue" (VBool true) r
          else if (c =? "f")%char then keyword "alse" (VBool false) r
          else if (c =? "n")%char then keyword "ull" VNull r
          else parsed_map VNumber (number (String c r))
      end
  end

with parse_elements (fuel : nat) (s : string) (acc : list value) : parsed value :=
  match fuel with
  | O => OutOfFuel
  | S fuel' =>
      match parse_value fuel' s with
      | Parsed v r =>
          match token "," r with
          | Some r' => parse_elements fuel' r' (v :: acc)
          | None =>
              match token "]" r with
              | Some r' => Parsed (VArray (rev (v :: acc))) r'
              | None => Invalid
              end
          end
      | other => other
      end
  end

with parse_members (fuel : nat) (s : string) (acc : list (list N * value))
  : parsed value :=
  match fuel with
  | O => OutOfFuel
  | S fuel' =>
      match token quote s with
      | Some r =>
          match string_body r with
          | Parsed k r1 =>
              match token ":" r1 with
              | Some r2 =>
                  match parse_value fuel' r2 with
                  | Parsed v r3 =>
                      match token "," r3 with
                      | Some r4 => parse_members fuel' r4 ((k, v) :: acc)
                      | None =>
                          match token "}" r3 with
                          | Some r4 => Parsed (VObject (rev ((k, v) :: acc))) r4
                          | None => Invalid
                          end
                      end
                  | other => other
                  end
              | None => Invalid
              end
          | Invalid => Invalid
          | OutOfFuel => OutOfFuel
          end
      | None => Invalid
      end
  end.

(** [JSON.parse(text)]: one value, white space around it, nothing else.  The
    fuel is enough for any text, so the last branch is never taken. *)
Definition JSON_parse (text : string) : outcome value :=
  match parse_value (2 * String.length text + 2) text with
  | Parsed v rest =>
      match skip_ws rest with
      | EmptyString => Return v
      | String _ _ => Throw SyntaxError
      end
  | Invalid => Throw SyntaxError
  | OutOfFuel => Throw SyntaxError
  end.

(** ** The read operations on stored text *)

(** [localStorage.getItem]: the text stored under a key, if any. *)
Definition localStorage : Type := string -> option string.

(** [Storage.KEYS]. *)
Definition SHOES : string := "exercisetrack2_shoes".
Definition WORKOUTS : string := "exercisetrack2_workouts".
Definition SHOE_ORDER : string := "exercisetrack2_shoe_order".

(** [data ? JSON.parse(data) : []]: [null] and the empty string are falsy. *)
Definition parse_or_empty (data : option string) : outcome value :=
  match data with
  | Some (String c r) => JSON_parse (String c r)
  | Some EmptyString => Return (VArray [])
  | None => Return (VArray [])
  end.

Definition getShoes (ls : localStorage) : outcome value :=
  parse_or_empty (ls SHOES).

Definition getWorkouts (ls : localStorage) : outcome value :=
  parse_or_empty (ls WORKOUTS).

Fixpoint units_eqb (a b : list N) : bool :=
  match a, b with
  | [], [] => true
  | x :: a', y :: b' => (x =? y)%N && units_eqb a' b'
  | _, _ => false
  end.

(** [s.id]: a [TypeError] on [null] and [undefined]; on an object the member
    named [id], the last one if the text repeated the key; [undefined] on
    anything else. *)
Definition get_id (s : value) : outcome value :=
  match s with
  | VUndefined => Throw TypeError
  | VNull => Throw TypeError
  | VObject members =>
      Return
        match find (fun m => units_eqb (fst m) [105; 100]%N) (rev members) with
        | Some (_, v) => v
        | None => VUndefined
        end
  | _ => Return VUndefined
  end.

Fixpoint map_id (items : list value) : outcome (list value) :=
  match items with
  | [] => Return []
  | s :: r =>
      match get_id s with
      | Return v =>
          match map_id r with
          | Return vs => Return (v :: vs)
          | Throw e => Throw e
          end
      | Throw e => Throw e
      end
  end.

(** [shoes.map(s => s.id)]: only an array has a [map] method to call. *)
Definition shoes_map_id (shoes : value) : outcome value :=
  match shoes with
  | VArray items =>
      match map_id items with
      | Return ids => Return (VArray ids)
      | Throw e => Throw e
      end
  | _ => Throw TypeError
  end.

Definition getShoeOrder (ls : localStorage) : outcome value :=
  match ls SHOE_ORDER with
  | Some (String c r) => JSON_parse (String c r)
  | _ =>
      match getShoes ls with
      | Return shoes => shoes_map_id shoes
      | Throw e => Throw e
      end
  end.

(** A parse that did not run out of fuel and left at most [n] characters. *)
Definition bounded {A} (p : parsed A) (n : nat) : Prop :=
  match p with
  | Parsed _ rest => String.length rest <= n
  | Invalid => True
  | OutOfFuel => False
  end.


(** ** Writing: [JSON.stringify] and [setItem] *)

(** [localStorage.setItem(key, text)]. *)
Definition setItem (ls : localStorage) (key text : string) : localStorage :=
  fun k => if k =? key then Some text else ls k.

(** The code units of a string. *)
Fixpoint units_of (s : string) : list N :=
  match s with
  | EmptyString => []
  | String c r => N_of_ascii c :: units_of r
  end.

(** A lower-case hexadecimal digit. *)
Definition hex_digit (n : N) : ascii :=
  if (n <? 10)%N then ascii_of_N (48 + n) else ascii_of_N (87 + n).

(** [JSON.stringify] on one code unit of a string, written in front of
    [rest]: the short escapes for backspace, tab, line feed, form feed,
    carriage return, the quote and the backslash; [\u00XX] for any other
    control character; the character itself otherwise. *)
Definition quote_char_onto (c : ascii) (rest : string) : string :=
  let n := N_of_ascii c in
  if (n =? 8)%N then String "\" (String "b" rest)
  else if (n =? 9)%N then String "\" (String "t" rest)
  else if (n =? 10)%N then String "\" (String "n" rest)
  else if (n =? 12)%N then String "\" (String "f" rest)
  else if (n =? 13)%N then String "\" (String "r" rest)
  else if (n =? 34)%N then String "\" (String quote rest)
  else if (n =? 92)%N then String "\" (String "\" rest)
  else if (n <? 32)%N then
    String "\" (String "u" (String "0" (String "0"
      (String (hex_digit (n / 16)) (String (hex_digit (n mod 16)) rest)))))
  else String c rest.

(** The escaped characters of a string and its closing quote, in front of
    [rest]. *)
Fixpoint quote_body_onto (s rest : string) : string :=
  match s with
  | EmptyString => String quote rest
  | String c r => quote_char_onto c (quote_body_onto r rest)
  end.

(** [JSON.stringify(s)] for a string [s], in front of [rest]. *)
Definition JSON_quote_onto (s rest : string) : string :=
  String quote (quote_body_onto s rest).

(** The texts of the elements of an array or the members of an object,
    separated by commas, in front of [rest]. *)
Fixpoint separated_onto {A} (text_onto : A -> string -> string) (l : list A)
  (rest : string) : string :=
  match l with
  | [] => rest
  | x :: r =>
      match r with
      | [] => text_onto x rest
      | _ :: _ => text_onto x (String "," (separated_onto text_onto r rest))
      end
  end.

(** [JSON.stringify(order)] for an array of strings. *)
Definition JSON_stringify_order (order : list string) : string :=
  String "[" (separated_onto JSON_quote_onto order "]").

(** [saveShoeOrder(order)]. *)
Definition saveShoeOrder (ls : localStorage) (order : list string) : localStorage :=
  setItem ls SHOE_ORDER (JSON_stringify_order order).

(** The value [JSON.parse] builds for an array of strings. *)
Definition order_value (order : list string) : value :=
  VArray (map (fun s => VString (units_of s)) order).

(** A member of an object: its quoted key, a colon, its value. *)
Definition member_onto (m : string * (string -> string)) (rest : string) : string :=
  JSON_quote_onto (fst m) (String ":" (snd m rest)).

(** The members [JSON.stringify] writes for a shoe, in the order in which
    [addShoe] creates the properties. *)
Definition shoe_members (s : Shoe.t) : list (string * (string -> string)) :=
  [ ("id", JSON_quote_onto (Shoe.id s));
    ("name", JSON_quote_onto (Shoe.name s));
    ("retired", append (if Shoe.retired s then "true" else "false"));
    ("imageData",
      match Shoe.imageData s with
      | Some d => JSON_quote_onto d
      | None => append "null"
      end);
    ("createdAt", JSON_quote_onto (Shoe.createdAt s)) ].

(** [JSON.stringify(shoe)], in front of [rest]. *)
Definition JSON_stringify_shoe_onto (s : Shoe.t) (rest : string) : string :=
  String "{" (separated_onto member_onto (shoe_members s) (String "}" rest)).

(** [JSON.stringify(shoes)]. *)
Definition JSON_stringify_shoes (shoes : list Shoe.t) : string :=
  String "[" (separated_onto JSON_stringify_shoe_onto shoes "]").

(** [saveShoes(shoes)]. *)
Definition saveShoes (ls : localStorage) (shoes : list Shoe.t) : localStorage :=
  setItem ls SHOES (JSON_stringify_shoes shoes).

(** The object [JSON.parse] builds for a shoe. *)
Definition shoe_value (s : Shoe.t) : value :=
  VObject
    [ (units_of "id", VString (units_of (Shoe.id s)));
      (units_of "name", VString (units_of (Shoe.name s)));
      (units_of "retired", VBool (Shoe.retired s));
      (units_of "imageData",
        match Shoe.imageData s with
        | Some d => VString (units_of d)
        | None => VNull
        end);
      (units_of "createdAt", VString (units_of (Shoe.createdAt s))) ].

End Raw.

(** * Properties *)

(** ** Reading *)

Lemma getShoes_eq ls : Storage.getShoes ls = Normal (listShoes ls) ls.
Proof. reflexivity. Qed.

Lemma getWorkouts_eq ls : Storage.getWorkouts ls = Normal (listWorkouts ls) ls.
Proof.
  unfold Storage.getWorkouts, listWorkouts, bind, getItem, ret; simpl.
  destruct (workouts_item ls); reflexivity.
Qed.

Lemma getShoeOrder_eq ls : Storage.getShoeOrder ls = Normal (getOrder ls) ls.
Proof.
  unfold Storage.getShoeOrder, getOrder, bind, getItem; simpl.
  destruct (shoe_order_item ls); reflexivity.
Qed.

Lemma getWorkoutsByShoe_eq ls shoeId :
  Storage.getWorkoutsByShoe shoeId ls
  = Normal (filter (fun w => Workout.shoeId w =? shoeId) (listWorkouts ls)) ls.
Proof.
  unfold Storage.getWorkoutsByShoe, bind. rewrite getWorkouts_eq. reflexivity.
Qed.

Lemma fold_left_miles (l : list Workout.t) (a : float) :
  fold_left (fun total w => PrimFloat.add total (ToNumber (Workout.miles w))) l a
  = fold_left (fun total m => PrimFloat.add total (ToNumber m)) (map Workout.miles l) a.
Proof.
  revert a. induction l as [|w l IH]; intro a; simpl; [reflexivity | apply IH].
Qed.

(** ** JSON numbers *)

Lemma JSON_number_idem v : JSON_number (JSON_number v) = JSON_number v.
Proof.
  destruct v as [f|]; simpl; [|reflexivity].
  destruct (PrimFloat.is_finite f) eqn:Hfin; simpl; [|reflexivity].
  destruct (PrimFloat.is_zero f) eqn:Hz.
  - reflexivity.
  - rewrite Hfin, Hz. reflexivity.
Qed.

Lemma JSON_roundtrip_idem w :
  Workout.JSON_roundtrip (Workout.JSON_roundtrip w) = Workout.JSON_roundtrip w.
Proof.
  unfold Workout.JSON_roundtrip; simpl. now rewrite JSON_number_idem.
Qed.

Lemma listWorkouts_roundtrip ls :
  map Workout.JSON_roundtrip (listWorkouts ls) = listWorkouts ls.
Proof.
  unfold listWorkouts. destruct (workouts_item ls) as [l|]; [|reflexivity].
  rewrite map_map. apply map_ext. intro w. apply JSON_roundtrip_idem.
Qed.





(** [parseFloat] on strings: a numeral, a numeral followed by other text,
    leading white space, a fraction and an exponent, a sign, text that starts
    with no numeral, a literal that is not a binary64 value, one beyond the
    largest number, and a tie between two binary64 values. *)
Lemma parseFloat_string_examples :
  parseFloat_string "3" = 3%float
  /\ parseFloat_string "12abc" = 12%float
  /\ parseFloat_string "  3.50" = 3.5%float
  /\ parseFloat_string ".5e1" = 5%float
  /\ parseFloat_string "-0" = neg_zero
  /\ parseFloat_string "+7." = 7%float
  /\ parseFloat_string "" = nan
  /\ parseFloat_string "miles" = nan
  /\ parseFloat_string "-Infinity" = neg_infinity
  /\ parseFloat_string "0.1" = 0x1.999999999999ap-4%float
  /\ parseFloat_string "1e400" = infinity
  /\ parseFloat_string "9007199254740993" = 9007199254740992%float.
Proof. repeat split; vm_compute; reflexivity. Qed.

(** ** Arrays *)

Lemma map_app_fixed {A} (f : A -> A) (l1 l2 : list A) :
  map f (l1 ++ l2) = l1 ++ l2 -> map f l1 = l1 /\ map f l2 = l2.
Proof.
  induction l1 as [|x l1 IH]; simpl; intro H.
  - split; [reflexivity | exact H].
  - injection H as Hx Hr. destruct (IH Hr) as [H1 H2].
    split; [now rewrite Hx, H1 | exact H2].
Qed.

Lemma find_none_iff {A} (p : A -> bool) (l : list A) :
  find p l = None <-> forall x, In x l -> p x = false.
Proof.
  split.
  - apply find_none.
  - induction l as [|x l IH]; simpl; intro H; [reflexivity|].
    rewrite (H x (or_introl eq_refl)). apply IH. intros y Hy. apply H. now right.
Qed.

Lemma find_split {A} (p : A -> bool) (l1 l2 : list A) (x : A) :
  (forall y, In y l1 -> p y = false) -> p x = true ->
  find p (l1 ++ x :: l2) = Some x.
Proof.
  intros H1 Hx. induction l1 as [|y l1 IH]; simpl.
  - now rewrite Hx.
  - rewrite (H1 y (or_introl eq_refl)). apply IH. intros z Hz. apply H1. now right.
Qed.

Lemma assign_found_split {A} (p : A -> bool) (f : A -> A) (l1 l2 : list A) (x : A) :
  (forall y, In y l1 -> p y = false) -> p x = true ->
  assign_found p f (l1 ++ x :: l2) = l1 ++ f x :: l2.
Proof.
  intros H1 Hx. induction l1 as [|y l1 IH]; simpl.
  - now rewrite Hx.
  - rewrite (H1 y (or_introl eq_refl)). f_equal. apply IH.
    intros z Hz. apply H1. now right.
Qed.

Lemma existsb_false_iff {A} (p : A -> bool) (l : list A) :
  existsb p l = false <-> forall x, In x l -> p x = false.
Proof.
  split.
  - intros H x Hx. destruct (p x) eqn:Hp; [|reflexivity].
    assert (existsb p l = true) by (apply existsb_exists; eauto). congruence.
  - intro H. destruct (existsb p l) eqn:He; [|reflexivity].
    apply existsb_exists in He. destruct He as [x [Hx Hp]].
    rewrite (H x Hx) in Hp. discriminate.
Qed.

Lemma filter_map_id {A B} (f : A -> B) (q : B -> bool) (l : list A) :
  filter q (map f l) = map f (filter (fun x => q (f x)) l).
Proof.
  induction l as [|x l IH]; simpl; [reflexivity|].
  destruct (q (f x)); simpl; now rewrite IH.
Qed.

(** ** Running the store's computations *)

(** Evaluate a computation of the store up to its next read. *)
Ltac js_step :=
  unfold bind, ret, throw, Storage.saveShoes, Storage.saveShoeOrder,
    Storage.saveWorkouts, setItem;
  rewrite ?getShoes_eq, ?getWorkouts_eq, ?getShoeOrder_eq;
  cbn beta iota.

Ltac js_run := repeat progress js_step.

(** ** Deleting a shoe (C3) *)

Lemma getOrder_after_filter (ls : localStorage) (id : string) (w : option (list Workout.t)) :
  getOrder
    (mkStorage (Some (filter (fun s => negb (Shoe.id s =? id)) (listShoes ls)))
       w (shoe_order_item ls))
  = match shoe_order_item ls with
    | Some order => order
    | None => filter (fun shoeId => negb (shoeId =? id)) (getOrder ls)
    end.
Proof.
  unfold getOrder; simpl. destruct (shoe_order_item ls) as [order|]; [reflexivity|].
  now rewrite filter_map_id.
Qed.

Lemma filter_idem {A} (p : A -> bool) (l : list A) : filter p (filter p l) = filter p l.
Proof.
  induction l as [|x l IH]; simpl; [reflexivity|].
  destruct (p x) eqn:E; simpl; rewrite ?E, IH; reflexivity.
Qed.

(** C3.  [deleteShoe(id)] returns [false] and leaves the three collections
    as they are whenever some workout references [id]; otherwise it returns
    [true], the shoes read afterwards are the former shoes without those whose
    id is [id] (all others kept, in order), the order read afterwards is the
    former order without [id], and the workouts are untouched. *)
Theorem deleteShoe_blocked_or_removes (ls : localStorage) (id : string) :
  ((exists w, In w (listWorkouts ls) /\ Workout.shoeId w = id) ->
   Storage.deleteShoe id ls = Normal false ls)
  /\
  ((forall w, In w (listWorkouts ls) -> Workout.shoeId w <> id) ->
   exists ls',
     Storage.deleteShoe id ls = Normal true ls'
     /\ listShoes ls' = filter (fun s => negb (Shoe.id s =? id)) (listShoes ls)
     /\ getOrder ls' = filter (fun shoeId => negb (shoeId =? id)) (getOrder ls)
     /\ workouts_item ls' = workouts_item ls).
Proof.
  unfold Storage.deleteShoe. split.
  - intros [w [Hin Hid]]. js_run.
    assert (He : existsb (fun w => Workout.shoeId w =? id) (listWorkouts ls) = true).
    { apply existsb_exists. exists w. split; [exact Hin|]. now apply String.eqb_eq. }
    rewrite He. reflexivity.
  - intro Hnone. js_run.
    assert (He : existsb (fun w => Workout.shoeId w =? id) (listWorkouts ls) = false).
    { apply existsb_false_iff. intros w Hw. apply String.eqb_neq. now apply Hnone. }
    rewrite He. js_run.
    eexists. split; [reflexivity|]. cbn [listShoes getOrder shoes_item shoe_order_item workouts_item].
    repeat split.
    rewrite getOrder_after_filter. unfold getOrder.
    destruct (shoe_order_item ls) as [order|]; [reflexivity|].
    apply filter_idem.
Qed.

(** A shoe with a workout and a shoe without one. *)
Lemma deleteShoe_example :
  let a := Shoe.make "a1" "Pegasus" false None "t1" in
  let b := Shoe.make "b2" "Ghost" false None "t2" in
  let w := Workout.make "w1" "a1" (Num 3%float) "2024-01-01" "t3" None in
  let ls := mkStorage (Some [a; b]) (Some [w]) (Some ["b2"; "a1"]) in
  Storage.deleteShoe "a1" ls = Normal false ls
  /\ exists ls',
      Storage.deleteShoe "b2" ls = Normal true ls'
      /\ listShoes ls' = [a] /\ getOrder ls' = ["a1"].
Proof.
  intros a b w ls.
  destruct (deleteShoe_blocked_or_removes ls "a1") as [Hblocked _].
  destruct (deleteShoe_blocked_or_removes ls "b2") as [_ Hremoves].
  split.
  - apply Hblocked. exists w. split; [now left | reflexivity].
  - destruct Hremoves as [ls' [H1 [H2 [H3 _]]]].
    + intros x [<-|[]]. discriminate.
    + exists ls'. split; [exact H1|]. split; [exact H2 | exact H3].
Defined.

(** ** Logging workouts (C4, C6, C7) *)

Lemma addWorkout_eq e ls shoeId miles date :
  Storage.addWorkout e shoeId miles date ls
  = Normal
      (newWorkout e shoeId miles date,
       existsb (same_workout shoeId miles date) (listWorkouts ls))
      (mkStorage (shoes_item ls)
         (Some (listWorkouts ls ++ [newWorkout e shoeId miles date]))
         (shoe_order_item ls)).
Proof. unfold Storage.addWorkout. js_run. reflexivity. Qed.

Lemma listWorkouts_pushed ls s o w :
  listWorkouts (mkStorage s (Some (listWorkouts ls ++ [w])) o)
  = listWorkouts ls ++ [Workout.JSON_roundtrip w].
Proof.
  unfold listWorkouts at 1; simpl.
  now rewrite map_app, listWorkouts_roundtrip.
Qed.




Lemma getTotalMiles_eq ls shoeId :
  Storage.getTotalMiles shoeId ls
  = Normal
      (sum_miles
         (map Workout.miles
            (filter (fun w => Workout.shoeId w =? shoeId) (listWorkouts ls))))
      ls.
Proof.
  unfold Storage.getTotalMiles, bind. rewrite getWorkoutsByShoe_eq.
  unfold ret, sum_miles. now rewrite fold_left_miles.
Qed.




(** The flag is computed with [w.miles === miles] on the argument as passed,
    while the workout is stored with [parseFloat(miles)].  For a string
    [miles], what a form field holds, the stored number never equals the
    argument: no call is flagged.  So [addWorkout("shoeX", "3", "2024-01-01")]
    twice on an empty store leaves two workouts of 3 miles and a total of 6,
    and the second call returns [isDuplicate = false]. *)
Lemma addWorkout_string_never_flagged :
  (forall e ls shoeId s date,
      Storage.addWorkout e shoeId (AString s) date ls
      = Normal (newWorkout e shoeId (AString s) date, false)
          (mkStorage (shoes_item ls)
             (Some (listWorkouts ls ++ [newWorkout e shoeId (AString s) date]))
             (shoe_order_item ls)))
  /\
  (let w1 := Workout.make "w1" "shoeX" (Num 3) "2024-01-01" "t1" None in
   let w2 := Workout.make "w2" "shoeX" (Num 3) "2024-01-01" "t2" None in
   let ls1 := mkStorage None (Some [w1]) None in
   let ls2 := mkStorage None (Some [w1; w2]) None in
   Storage.addWorkout (mkEnv "w1" "t1") "shoeX" (AString "3") "2024-01-01"
     empty_storage
   = Normal (w1, false) ls1
   /\ Storage.addWorkout (mkEnv "w2" "t2") "shoeX" (AString "3") "2024-01-01" ls1
      = Normal (w2, false) ls2
   /\ listWorkouts ls2 = [w1; w2]
   /\ Storage.getTotalMiles "shoeX" ls2 = Normal 6%float ls2).
Proof.
  split.
  - intros e ls shoeId s date. rewrite addWorkout_eq. do 2 f_equal.
    apply existsb_false_iff. intros w _. unfold same_workout, strict_eq.
    apply andb_false_r.
  - cbv zeta. repeat split; vm_compute; reflexivity.
Qed.

(** C6, as the code has it.  [addWorkout] never consults the shoes: whatever
    the shoe collection holds, and whether or not some shoe has the given
    [shoeId], it returns normally with the same workout and the same flag, and
    stores the workout; the shoes are left as they were. *)
Theorem addWorkout_does_not_check_shoeId
  (e : Env) (ls : localStorage) (shoeId : string) (miles : argument) (date : string)
  (shoes' : option (list Shoe.t)) :
  exists isDuplicate ls1 ls2,
    Storage.addWorkout e shoeId miles date ls
    = Normal (newWorkout e shoeId miles date, isDuplicate) ls1
    /\ Storage.addWorkout e shoeId miles date
         (mkStorage shoes' (workouts_item ls) (shoe_order_item ls))
       = Normal (newWorkout e shoeId miles date, isDuplicate) ls2
    /\ In (Workout.JSON_roundtrip (newWorkout e shoeId miles date)) (listWorkouts ls1)
    /\ workouts_item ls2 = workouts_item ls1
    /\ shoes_item ls1 = shoes_item ls.
Proof.
  do 3 eexists. split; [apply addWorkout_eq|].
  split; [rewrite addWorkout_eq; reflexivity|].
  split; [|split; reflexivity].
  rewrite listWorkouts_pushed. apply in_or_app. right. now left.
Qed.

(** C6 fails as stated: on a store without any shoe, logging a workout for
    the id ["ghost"] returns normally, with no failure signalled, and the
    workout is stored. *)
Lemma addWorkout_unknown_shoe_is_stored :
  let e := mkEnv "w1" "2024-01-01T00:00:00.000Z" in
  let w := Workout.make "w1" "ghost" (Num 3%float) "2024-01-01"
             "2024-01-01T00:00:00.000Z" None in
  listShoes empty_storage = []
  /\ Storage.addWorkout e "ghost" 3%float "2024-01-01" empty_storage
     = Normal (w, false) (mkStorage None (Some [w]) None)
  /\ listWorkouts (mkStorage None (Some [w]) None) = [w].
Proof. repeat split. Qed.

(** C7.  [getTotalMiles(shoeId)] is the left-to-right sum, from 0, of the
    [miles] of exactly the workouts whose [shoeId] matches; it is 0 when none
    matches; and logging a workout for another shoe leaves it unchanged. *)
Theorem getTotalMiles_sums_matching (ls : localStorage) (shoeId : string) :
  Storage.getTotalMiles shoeId ls
  = Normal
      (sum_miles
         (map Workout.miles
            (filter (fun w => Workout.shoeId w =? shoeId) (listWorkouts ls))))
      ls
  /\
  ((forall w, In w (listWorkouts ls) -> Workout.shoeId w <> shoeId) ->
   Storage.getTotalMiles shoeId ls = Normal PrimFloat.zero ls)
  /\
  (forall e other miles date,
      other <> shoeId ->
      exists total,
        Storage.getTotalMiles shoeId ls = Normal total ls
        /\ Storage.getTotalMiles shoeId (run (AddWorkout e other miles date) ls)
           = Normal total (run (AddWorkout e other miles date) ls)).
Proof.
  split; [apply getTotalMiles_eq|]. split.
  - intro Hnone. rewrite getTotalMiles_eq.
    replace (filter (fun w => Workout.shoeId w =? shoeId) (listWorkouts ls))
      with (@nil Workout.t); [reflexivity|].
    symmetry. induction (listWorkouts ls) as [|w l IH]; simpl; [reflexivity|].
    assert (Hw : (Workout.shoeId w =? shoeId) = false).
    { apply String.eqb_neq. apply Hnone. now left. }
    rewrite Hw. apply IH. intros x Hx. apply Hnone. now right.
  - intros e other miles date Hneq. eexists. split; [apply getTotalMiles_eq|].
    rewrite getTotalMiles_eq. f_equal.
    unfold run. rewrite addWorkout_eq. cbn [final].
    rewrite listWorkouts_pushed, filter_app.
    cbn [filter Workout.JSON_roundtrip newWorkout Workout.shoeId].
    apply String.eqb_neq in Hneq. rewrite Hneq. now rewrite app_nil_r.
Qed.

(** Two shoes, three workouts: the totals, and the total of the first shoe
    after a workout is logged for the second. *)
Lemma getTotalMiles_example :
  let w1 := Workout.make "w1" "a1" (Num 3%float) "2024-01-01" "t1" None in
  let w2 := Workout.make "w2" "b2" (Num 5%float) "2024-01-01" "t2" None in
  let w3 := Workout.make "w3" "a1" (Num 4.5%float) "2024-01-02" "t3" None in
  let ls := mkStorage None (Some [w1; w2; w3]) None in
  let ls' := run (AddWorkout (mkEnv "w4" "t4") "b2" 2%float "2024-01-03") ls in
  Storage.getTotalMiles "a1" ls = Normal 7.5%float ls
  /\ Storage.getTotalMiles "c3" ls = Normal 0%float ls
  /\ Storage.getTotalMiles "a1" ls' = Normal 7.5%float ls'.
Proof.
  intros w1 w2 w3 ls ls'.
  destruct (getTotalMiles_sums_matching ls "a1") as [Hsum [_ Hframe]].
  destruct (getTotalMiles_sums_matching ls "c3") as [_ [Hzero _]].
  split; [rewrite Hsum; reflexivity|]. split.
  - apply Hzero. intros w [<-|[<-|[<-|[]]]]; discriminate.
  - destruct (Hframe (mkEnv "w4" "t4") "b2" 2%float "2024-01-03") as [total [H1 H2]];
      [discriminate|].
    rewrite Hsum in H1. injection H1 as <-. exact H2.
Defined.

(** ** Editing a workout (C9) *)

(** C9.  [updateWorkout] with an id that no workout has returns normally and
    leaves the storage as it is.  With an id that some workout has, it
    replaces [shoeId], [miles] (the argument as a number) and [date] of the
    first workout with that id, sets its [updatedAt], keeps its [id] and
    [createdAt], and leaves every other workout, the shoes and the order as
    they were. *)
Theorem updateWorkout_absent_or_overwrites
  (e : Env) (ls : localStorage) (id shoeId : string) (miles : argument) (date : string) :
  ((forall w, In w (listWorkouts ls) -> Workout.id w <> id) ->
   Storage.updateWorkout e id shoeId miles date ls = Normal tt ls)
  /\
  (forall before w after,
      listWorkouts ls = before ++ w :: after ->
      Workout.id w = id ->
      (forall x, In x before -> Workout.id x <> id) ->
      exists ls',
        Storage.updateWorkout e id shoeId miles date ls = Normal tt ls'
        /\ listWorkouts ls'
           = before
               ++ Workout.make id shoeId (JSON_number (Num (parseFloat miles))) date
                    (Workout.createdAt w) (Some (toISOString e))
               :: after
        /\ shoes_item ls' = shoes_item ls
        /\ shoe_order_item ls' = shoe_order_item ls).
Proof.
  unfold Storage.updateWorkout. split.
  - intro Habsent. js_run.
    replace (find (fun w => Workout.id w =? id) (listWorkouts ls)) with (@None Workout.t);
      [reflexivity|].
    symmetry. apply find_none_iff. intros w Hw. apply String.eqb_neq. now apply Habsent.
  - intros before w after Hsplit Hid Hbefore. js_run.
    assert (Hb : forall y, In y before -> (Workout.id y =? id) = false).
    { intros y Hy. apply String.eqb_neq. now apply Hbefore. }
    assert (Hw : (Workout.id w =? id) = true) by now apply String.eqb_eq.
    rewrite Hsplit.
    rewrite (find_split _ before after w Hb Hw).
    rewrite (assign_found_split _ _ before after w Hb Hw).
    eexists. split; [reflexivity|]. split; [|split; reflexivity].
    unfold listWorkouts at 1. cbn [workouts_item].
    pose proof (listWorkouts_roundtrip ls) as Hrt. rewrite Hsplit in Hrt.
    apply map_app_fixed in Hrt. destruct Hrt as [H1 H2].
    cbn [map] in H2. injection H2 as _ H2.
    rewrite map_app. cbn [map]. rewrite H1, H2.
    unfold Workout.JSON_roundtrip at 1.
    cbn [Workout.id Workout.shoeId Workout.miles Workout.date Workout.createdAt
         Workout.updatedAt].
    now rewrite Hid.
Qed.

(** An edit of the second of two workouts, and an edit with an unknown id. *)
Lemma updateWorkout_example :
  let w1 := Workout.make "w1" "a" (Num 3%float) "2024-01-01" "t1" None in
  let w2 := Workout.make "w2" "a" (Num 5%float) "2024-01-02" "t2" None in
  let ls := mkStorage None (Some [w1; w2]) None in
  Storage.updateWorkout (mkEnv "unused" "t3") "zz" "b" 4%float "2024-02-02" ls
  = Normal tt ls
  /\ exists ls',
      Storage.updateWorkout (mkEnv "unused" "t3") "w2" "b" 4%float "2024-02-02" ls
      = Normal tt ls'
      /\ listWorkouts ls'
         = [w1; Workout.make "w2" "b" (Num 4%float) "2024-02-02" "t2" (Some "t3")].
Proof.
  intros w1 w2 ls.
  destruct (updateWorkout_absent_or_overwrites (mkEnv "unused" "t3") ls "zz" "b"
              4%float "2024-02-02") as [Habsent _].
  destruct (updateWorkout_absent_or_overwrites (mkEnv "unused" "t3") ls "w2" "b"
              4%float "2024-02-02") as [_ Hpresent].
  split.
  - apply Habsent. intros w [<-|[<-|[]]]; discriminate.
  - destruct (Hpresent [w1] w2 [] eq_refl eq_refl) as [ls' [H1 [H2 _]]].
    + intros x [<-|[]]. discriminate.
    + exists ls'. split; [exact H1 | exact H2].
Defined.

(** ** Retiring a shoe (C8) *)

Lemma retireShoe_eq ls id :
  Storage.retireShoe id ls
  = Normal tt
      (match find (fun s => Shoe.id s =? id) (listShoes ls) with
       | Some _ =>
           mkStorage
             (Some (assign_found (fun s => Shoe.id s =? id) (Shoe.set_retired true)
                      (listShoes ls)))
             (workouts_item ls) (shoe_order_item ls)
       | None => ls
       end).
Proof.
  unfold Storage.retireShoe. js_run.
  destruct (find (fun s => Shoe.id s =? id) (listShoes ls)); reflexivity.
Qed.

Lemma assign_found_idem {A} (p : A -> bool) (f : A -> A) (l : list A) :
  (forall x, p (f x) = p x) -> (forall x, f (f x) = f x) ->
  assign_found p f (assign_found p f l) = assign_found p f l.
Proof.
  intros Hp Hf. induction l as [|x l IH]; simpl; [reflexivity|].
  destruct (p x) eqn:E; simpl.
  - now rewrite Hp, E, Hf.
  - now rewrite E, IH.
Qed.

Lemma find_assign_found {A} (p : A -> bool) (f : A -> A) (l : list A) :
  (forall x, p (f x) = p x) ->
  find p (assign_found p f l) = option_map f (find p l).
Proof.
  intro Hp. induction l as [|x l IH]; simpl; [reflexivity|].
  destruct (p x) eqn:E; simpl.
  - now rewrite Hp, E.
  - now rewrite E, IH.
Qed.

Lemma in_assign_found {A} (p : A -> bool) (f : A -> A) (l : list A) (y : A) :
  In y (assign_found p f l) -> In y l \/ exists x, In x l /\ y = f x.
Proof.
  induction l as [|x l IH]; simpl; [tauto|].
  destruct (p x); simpl.
  - intros [<-|H]; [right; exists x; auto | left; auto].
  - intros [<-|H]; [left; auto|].
    destruct (IH H) as [H'|[z [Hz ->]]]; [left; auto | right; exists z; auto].
Qed.

Lemma map_assign_found {A B} (g : A -> B) (p : A -> bool) (f : A -> A) (l : list A) :
  (forall x, g (f x) = g x) -> map g (assign_found p f l) = map g l.
Proof.
  intro Hg. induction l as [|x l IH]; simpl; [reflexivity|].
  destruct (p x); simpl; [now rewrite Hg | now rewrite IH].
Qed.

Lemma listShoes_stored l w o : listShoes (mkStorage (Some l) w o) = l.
Proof. reflexivity. Qed.

(** The shoes an operation leaves behind. *)
Lemma addShoe_eq e ls name imageData :
  Storage.addShoe e name imageData ls
  = if existsb (fun shoe => toLowerCase (Shoe.name shoe) =? toLowerCase name)
         (listShoes ls)
    then Throw (Error "A shoe with this name already exists") ls
    else
      let newShoe := Shoe.make (generateId e) (trim name) false imageData (toISOString e) in
      Normal newShoe
        (mkStorage (Some (listShoes ls ++ [newShoe])) (workouts_item ls)
           (Some (match shoe_order_item ls with
                  | Some order => order
                  | None => map Shoe.id (listShoes ls ++ [newShoe])
                  end ++ [generateId e]))).
Proof.
  unfold Storage.addShoe. js_run.
  destruct (existsb _ (listShoes ls)); [reflexivity|].
  js_run. unfold getOrder. cbn [shoe_order_item shoes_item listShoes Shoe.id].
  reflexivity.
Qed.

Lemma deleteShoe_eq ls id :
  Storage.deleteShoe id ls
  = if existsb (fun w => Workout.shoeId w =? id) (listWorkouts ls)
    then Normal false ls
    else
      Normal true
        (mkStorage (Some (filter (fun s => negb (Shoe.id s =? id)) (listShoes ls)))
           (workouts_item ls)
           (Some (filter (fun shoeId => negb (shoeId =? id)) (getOrder ls)))).
Proof.
  unfold Storage.deleteShoe. js_run.
  destruct (existsb _ (listWorkouts ls)); [reflexivity|].
  js_run. rewrite getOrder_after_filter. unfold getOrder.
  destruct (shoe_order_item ls); [reflexivity|]. now rewrite filter_idem.
Qed.

Lemma updateWorkout_shoes e ls id shoeId miles date :
  shoes_item (final (Storage.updateWorkout e id shoeId miles date ls)) = shoes_item ls
  /\ shoe_order_item (final (Storage.updateWorkout e id shoeId miles date ls))
     = shoe_order_item ls.
Proof.
  unfold Storage.updateWorkout. js_run.
  destruct (find _ (listWorkouts ls)); split; reflexivity.
Qed.

(** Retired shoes stay retired: if a shoe has id [i] and every shoe with that
    id is retired, the same holds of the shoes with id [i] after any
    operation. *)
Lemma retired_stays (o : operation) (ls : localStorage) (i : string) :
  fresh_id o ls ->
  In i (map Shoe.id (listShoes ls)) ->
  (forall s, In s (listShoes ls) -> Shoe.id s = i -> Shoe.retired s = true) ->
  forall s', In s' (listShoes (run o ls)) -> Shoe.id s' = i -> Shoe.retired s' = true.
Proof.
  intros Hfresh Hex Hret s'.
  destruct o as [e name img|id|id|order|e sid miles date|e id sid miles date|id| ];
    cbn [run].
  - rewrite addShoe_eq. destruct (existsb _ (listShoes ls)); cbn [final]; [apply Hret|].
    unfold listShoes at 1. cbn [shoes_item]. intros Hin Hid.
    apply in_app_or in Hin. destruct Hin as [Hin|[<-|[]]]; [now apply Hret|].
    cbn [Shoe.id] in Hid. cbn [fresh_id] in Hfresh. now rewrite Hid in Hfresh.
  - rewrite retireShoe_eq. cbn [final].
    destruct (find _ (listShoes ls)); [|apply Hret].
    unfold listShoes at 1. cbn [shoes_item]. intros Hin Hid.
    apply in_assign_found in Hin. destruct Hin as [Hin|[x [Hx ->]]]; [now apply Hret|].
    reflexivity.
  - rewrite deleteShoe_eq. destruct (existsb _ (listWorkouts ls)); cbn [final]; [apply Hret|].
    unfold listShoes at 1. cbn [shoes_item]. intros Hin Hid.
    apply filter_In in Hin. now apply Hret.
  - apply Hret.
  - rewrite addWorkout_eq. apply Hret.
  - unfold listShoes at 1. rewrite (proj1 (updateWorkout_shoes e ls id sid miles date)).
    apply Hret.
  - apply Hret.
  - intros [].
Qed.

(** C8.  [retireShoe] is idempotent: a second call with the same id returns
    normally and leaves the storage exactly as the first call left it; with an
    id no shoe has it changes nothing; and no operation of the store turns a
    retired shoe back: a shoe that is retired is, while it exists, still
    retired after any operation (shoe ids being distinct and a newly generated
    id fresh). *)
Theorem retireShoe_idempotent_and_monotone :
  (forall ls id,
      exists ls1,
        Storage.retireShoe id ls = Normal tt ls1
        /\ Storage.retireShoe id ls1 = Normal tt ls1)
  /\
  (forall ls id,
      (forall s, In s (listShoes ls) -> Shoe.id s <> id) ->
      Storage.retireShoe id ls = Normal tt ls)
  /\
  (forall o ls s s',
      NoDup (map Shoe.id (listShoes ls)) ->
      fresh_id o ls ->
      In s (listShoes ls) -> Shoe.retired s = true ->
      In s' (listShoes (run o ls)) -> Shoe.id s' = Shoe.id s ->
      Shoe.retired s' = true).
Proof.
  split; [|split].
  - intros ls id. eexists. split; [apply retireShoe_eq|].
    rewrite retireShoe_eq.
    destruct (find (fun s => Shoe.id s =? id) (listShoes ls)) as [x|] eqn:Hf.
    + rewrite !listShoes_stored. cbn [workouts_item shoe_order_item].
      rewrite find_assign_found by reflexivity. rewrite Hf. cbn [option_map].
      rewrite assign_found_idem by reflexivity. reflexivity.
    + now rewrite Hf.
  - intros ls id Habsent. rewrite retireShoe_eq.
    replace (find (fun s => Shoe.id s =? id) (listShoes ls)) with (@None Shoe.t);
      [reflexivity|].
    symmetry. apply find_none_iff. intros s Hs. apply String.eqb_neq. now apply Habsent.
  - intros o ls s s' Hnodup Hfresh Hin Hret Hin' Hid.
    apply (retired_stays o ls (Shoe.id s) Hfresh); [now apply in_map | | exact Hin' | exact Hid].
    intros x Hx Hxid.
    assert (x = s); [|now subst].
    clear - Hnodup Hin Hx Hxid.
    induction (listShoes ls) as [|y l IH]; [destruct Hin|].
    cbn [map] in Hnodup. inversion Hnodup as [|? ? Hnotin Hnd]; subst.
    destruct Hin as [->|Hin], Hx as [->|Hx].
    + reflexivity.
    + exfalso. apply Hnotin. rewrite <- Hxid. now apply in_map.
    + exfalso. apply Hnotin. rewrite Hxid. now apply in_map.
    + now apply IH.
Qed.

(** A retired shoe among two, before and after another shoe is added. *)
Lemma retireShoe_example :
  let a := Shoe.make "a1" "Pegasus" false None "t1" in
  let b := Shoe.make "b2" "Ghost" false None "t2" in
  let ls := mkStorage (Some [a; b]) None (Some ["a1"; "b2"]) in
  exists ls1,
    Storage.retireShoe "a1" ls = Normal tt ls1
    /\ Storage.retireShoe "a1" ls1 = Normal tt ls1
    /\ Storage.retireShoe "zz" ls = Normal tt ls
    /\ forall s', In s' (listShoes (run (AddShoe (mkEnv "c3" "t3") "Clifton" None) ls1)) ->
                  Shoe.id s' = "a1" -> Shoe.retired s' = true.
Proof.
  intros a b ls.
  destruct retireShoe_idempotent_and_monotone as [Hidem [Habsent Hmono]].
  destruct (Hidem ls "a1") as [ls1 [H1 H2]].
  exists ls1. split; [exact H1|]. split; [exact H2|]. split.
  - apply Habsent. intros s [<-|[<-|[]]]; discriminate.
  - rewrite retireShoe_eq in H1. injection H1 as <-.
    intros s' Hin Hid.
    refine (Hmono _ _ (Shoe.set_retired true a) s' _ _ _ _ Hin Hid).
    + cbn. repeat constructor; cbn; intuition discriminate.
    + cbn. intuition discriminate.
    + cbn. now left.
    + reflexivity.
Defined.

(** ** Shoe names (C1) *)

Lemma NoDup_snoc {A} (l : list A) (x : A) : NoDup l -> ~ In x l -> NoDup (l ++ [x]).
Proof.
  intros Hl Hx. apply NoDup_app; [exact Hl | repeat constructor; intros [] |].
  intros a Ha [<-|[]]. contradiction.
Qed.

(** [addShoe] compares the name as given, before trimming it: it throws, and
    writes nothing, exactly when an existing name equals the untrimmed
    argument ignoring case. *)
Lemma addShoe_throws_iff e ls name imageData :
  (exists s, In s (listShoes ls) /\ toLowerCase (Shoe.name s) = toLowerCase name)
  <-> Storage.addShoe e name imageData ls
      = Throw (Error "A shoe with this name already exists") ls.
Proof.
  rewrite addShoe_eq.
  destruct (existsb _ (listShoes ls)) eqn:He; split.
  - reflexivity.
  - intros _. apply existsb_exists in He. destruct He as [s [Hs Hn]].
    exists s. split; [exact Hs | now apply String.eqb_eq].
  - intros [s [Hs Hn]]. apply (proj1 (existsb_false_iff _ _)) with (x := s) in He; [|exact Hs].
    apply String.eqb_neq in He. contradiction.
  - discriminate.
Qed.

(** For a name that carries no surrounding white space the check is the right
    one: the operation keeps the names unique. *)
Lemma addShoe_trimmed_keeps_names_unique e ls name imageData :
  trim name = name -> names_unique ls ->
  names_unique (run (AddShoe e name imageData) ls).
Proof.
  intros Htrim Huniq. cbn [run]. rewrite addShoe_eq.
  destruct (existsb _ (listShoes ls)) eqn:He; cbn [final]; [exact Huniq|].
  unfold names_unique. rewrite listShoes_stored, map_app. cbn [map Shoe.name].
  apply NoDup_snoc; [exact Huniq|].
  rewrite Htrim. intro Hin. apply in_map_iff in Hin. destruct Hin as [s [Hn Hs]].
  apply (proj1 (existsb_false_iff _ _)) with (x := s) in He; [|exact Hs].
  apply String.eqb_neq in He. contradiction.
Qed.

Lemma listShoes_addWorkout e ls shoeId miles date :
  listShoes (run (AddWorkout e shoeId miles date) ls) = listShoes ls.
Proof. cbn [run]. now rewrite addWorkout_eq. Qed.

(** X11.  With [addShoe] called on trimmed names only, every operation keeps
    the names unique ignoring case. *)
Lemma names_unique_maintained (o : operation) (ls : localStorage) :
  match o with AddShoe _ name _ => trim name = name | _ => True end ->
  names_unique ls -> names_unique (run o ls).
Proof.
  intros Ho Huniq.
  destruct o as [e name img|id|id|order|e sid miles date|e id sid miles date|id| ].
  - now apply addShoe_trimmed_keeps_names_unique.
  - cbn [run]. rewrite retireShoe_eq. cbn [final].
    destruct (find _ (listShoes ls)); [|exact Huniq].
    unfold names_unique in *. rewrite listShoes_stored.
    now rewrite map_assign_found by reflexivity.
  - cbn [run]. rewrite deleteShoe_eq.
    destruct (existsb _ (listWorkouts ls)); cbn [final]; [exact Huniq|].
    unfold names_unique in *. rewrite listShoes_stored.
    induction (listShoes ls) as [|s l IH]; [constructor|].
    cbn [map] in Huniq. inversion Huniq as [|? ? Hnotin Hnd]; subst.
    cbn [filter]. destruct (negb (Shoe.id s =? id)); [|now apply IH].
    cbn [map]. constructor; [|now apply IH].
    intro Hin. apply Hnotin. apply in_map_iff in Hin. destruct Hin as [x [Hx Hin]].
    apply filter_In in Hin. apply in_map_iff. exists x. tauto.
  - exact Huniq.
  - unfold names_unique. now rewrite listShoes_addWorkout.
  - unfold names_unique, listShoes. cbn [run].
    now rewrite (proj1 (updateWorkout_shoes e ls id sid miles date)).
  - exact Huniq.
  - constructor.
Qed.

Lemma names_unique_maintained_example :
  let a := Shoe.make "a1" "Pegasus" false None "t1" in
  let ls := mkStorage (Some [a]) None (Some ["a1"]) in
  names_unique (run (AddShoe (mkEnv "b2" "t2") "Ghost" None) ls)
  /\ names_unique (run (DeleteShoe "a1") ls).
Proof.
  intros a ls.
  assert (Huniq : names_unique ls).
  { unfold names_unique. cbn. repeat constructor. intros []. }
  split; apply names_unique_maintained; try exact Huniq; [reflexivity | exact I].
Defined.

(** C1, where the code departs from it.  With a shoe named ["nike"] stored,
    [addShoe(" Nike")] does not throw: it stores a second shoe under the
    trimmed name ["Nike"], and the names are no longer unique ignoring case. *)
Theorem addShoe_untrimmed_duplicate_accepted :
  let ls := run (AddShoe (mkEnv "a1" "t1") "nike" None) empty_storage in
  names_unique ls
  /\ exists shoe ls',
      Storage.addShoe (mkEnv "b2" "t2") " Nike" None ls = Normal shoe ls'
      /\ map Shoe.name (listShoes ls') = ["nike"; "Nike"]
      /\ toLowerCase "nike" = toLowerCase "Nike"
      /\ ~ names_unique ls'.
Proof.
  split.
  - cbv. repeat constructor; intros [].
  - do 2 eexists. split; [cbv; reflexivity|]. split; [reflexivity|].
    split; [reflexivity|].
    intro H. cbv in H. inversion H as [|x l Hnotin _]; subst. apply Hnotin. now left.
Qed.

(** The specification's example: ["Nike Air"] after ["nike air"] is refused,
    and the store is left as it was. *)
Lemma addShoe_case_insensitive_example :
  let ls := run (AddShoe (mkEnv "a1" "t1") "nike air" None) empty_storage in
  Storage.addShoe (mkEnv "b2" "t2") "Nike Air" None ls
  = Throw (Error "A shoe with this name already exists") ls.
Proof.
  intro ls. apply addShoe_throws_iff.
  exists (Shoe.make "a1" "nike air" false None "t1"). split; [now left | reflexivity].
Qed.

(** ** The display order (C2) *)

Lemma order_exact_healed ls : order_exact ls -> order_healed ls.
Proof.
  intros [Hnd Hperm]. split.
  - intros s Hs.
    apply (proj1 (NoDup_count_occ' string_dec (getOrder ls))).
    + now apply (Permutation_NoDup Hperm).
    + apply (Permutation_in _ Hperm). now apply in_map.
  - intros i Hi. apply (Permutation_in _ (Permutation_sym Hperm)). exact Hi.
Qed.

Lemma Permutation_filter_both {A} (p : A -> bool) (l l' : list A) :
  Permutation l l' -> Permutation (filter p l) (filter p l').
Proof.
  induction 1 as [|x l l' _ IH|x y l|l l' l'' _ IH1 _ IH2]; simpl.
  - constructor.
  - destruct (p x); [now constructor | exact IH].
  - destruct (p x), (p y); try apply Permutation_refl. apply perm_swap.
  - now apply (Permutation_trans IH1).
Qed.

(** C2, as the code has it.  [getShoeOrder] returns the stored order as it
    is, neither completing it nor dropping stale ids, and the ids of the
    current shoes in storage order when no order is stored.  An order that
    holds every current shoe id exactly once stays so under every operation,
    provided [addShoe] draws a fresh id and finds an order stored, and
    [saveShoeOrder] is given a permutation of the current ids. *)
Theorem getShoeOrder_verbatim_order_maintained :
  (forall ls,
      Storage.getShoeOrder ls
      = Normal (match shoe_order_item ls with
                | Some order => order
                | None => map Shoe.id (listShoes ls)
                end) ls)
  /\
  (forall o ls,
      order_exact ls -> keeps_order o ls ->
      order_exact (run o ls) /\ order_healed (run o ls)).
Proof.
  split; [exact getShoeOrder_eq|].
  intros o ls Hexact Hkeeps.
  assert (H : order_exact (run o ls)); [|split; [exact H | now apply order_exact_healed]].
  destruct Hexact as [Hnd Hperm].
  destruct o as [e name img|id|id|order|e sid miles date|e id sid miles date|id| ];
    cbn [run keeps_order] in *.
  - rewrite addShoe_eq. destruct (existsb _ (listShoes ls)); cbn [final]; [now split|].
    destruct Hkeeps as [Hfresh Hstored].
    unfold getOrder in Hperm. unfold order_exact, getOrder.
    rewrite listShoes_stored. cbn [shoe_order_item].
    destruct (shoe_order_item ls) as [order|]; [|contradiction].
    rewrite map_app. cbn [map Shoe.id]. split.
    + now apply NoDup_snoc.
    + now apply Permutation_app_tail.
  - rewrite retireShoe_eq. cbn [final].
    destruct (find _ (listShoes ls)); [|now split].
    unfold order_exact, getOrder in *. rewrite listShoes_stored. cbn [shoe_order_item].
    rewrite map_assign_found by reflexivity.
    split; [exact Hnd|]. exact Hperm.
  - rewrite deleteShoe_eq. destruct (existsb _ (listWorkouts ls)); cbn [final]; [now split|].
    unfold order_exact.
    change (getOrder (mkStorage
                        (Some (filter (fun s => negb (Shoe.id s =? id)) (listShoes ls)))
                        (workouts_item ls)
                        (Some (filter (fun shoeId => negb (shoeId =? id)) (getOrder ls)))))
      with (filter (fun shoeId => negb (shoeId =? id)) (getOrder ls)).
    rewrite listShoes_stored.
    rewrite <- (filter_map_id Shoe.id (fun i => negb (i =? id))). split.
    + now apply NoDup_filter.
    + now apply Permutation_filter_both.
  - unfold order_exact, getOrder. cbn. split; assumption.
  - rewrite addWorkout_eq. cbn [final]. now split.
  - destruct (updateWorkout_shoes e ls id sid miles date) as [Hs Ho].
    unfold order_exact, getOrder, listShoes in *. rewrite Hs, Ho. now split.
  - now split.
  - cbn. split; constructor.
Qed.

(** Adding a shoe to a store whose order lists its one shoe. *)
Lemma getShoeOrder_maintained_example :
  let a := Shoe.make "a1" "Pegasus" false None "t1" in
  let ls := mkStorage (Some [a]) None (Some ["a1"]) in
  let ls' := run (AddShoe (mkEnv "b2" "t2") "Ghost" None) ls in
  Storage.getShoeOrder ls' = Normal ["a1"; "b2"] ls' /\ order_healed ls'.
Proof.
  intros a ls ls'.
  destruct getShoeOrder_verbatim_order_maintained as [Hread Hkeep].
  split; [apply Hread|].
  apply (Hkeep (AddShoe (mkEnv "b2" "t2") "Ghost" None) ls).
  - split; cbn.
    + repeat constructor. intros [].
    + apply Permutation_refl.
  - split; cbn; [intuition discriminate | discriminate].
Defined.

(** C2 fails as stated: after [addShoe] and [saveShoeOrder(["zzz"])] the order
    read back is [["zzz"]]; it lacks the id of the one shoe and holds an id
    that no shoe has. *)
Lemma getShoeOrder_returns_stale_order :
  let ls :=
    run (SetOrder ["zzz"]) (run (AddShoe (mkEnv "a1" "t1") "Pegasus" None) empty_storage) in
  reachable ls
  /\ map Shoe.id (listShoes ls) = ["a1"]
  /\ Storage.getShoeOrder ls = Normal ["zzz"] ls
  /\ ~ order_healed ls.
Proof.
  split; [repeat constructor|]. split; [reflexivity|]. split; [reflexivity|].
  intros [_ Hstale]. specialize (Hstale "zzz" (or_introl eq_refl)).
  destruct Hstale as [H|[]]. discriminate.
Qed.

(** On a store without a stored order, [addShoe] reads an order that is
    derived from the shoes it has just saved, new shoe included, and appends
    the new id to it: the id is stored twice. *)
Lemma addShoe_without_order_stores_id_twice :
  getOrder (run (AddShoe (mkEnv "a1" "t1") "Pegasus" None) empty_storage)
  = ["a1"; "a1"].
Proof. reflexivity. Qed.

(** ** The merged view (C10) *)

Lemma obj_get_plain (props : list (string * Shoe.t)) (k : string) :
  plain_key k ->
  obj_get (mkObject props None) k
  = match own_get k props with Some s => VShoe s | None => VUndefined end.
Proof.
  intros [Hproto Hfun]. unfold obj_get. cbn [own prototype].
  destruct (own_get k props); [reflexivity|].
  apply String.eqb_neq in Hproto. rewrite Hproto.
  unfold Object_prototype_get.
  replace (existsb (String.eqb k) Object_prototype_functions) with false; [reflexivity|].
  symmetry. apply existsb_false_iff. intros x Hx. apply String.eqb_neq.
  intros ->. contradiction.
Qed.

Lemma own_set_fresh (k : string) (v : Shoe.t) (ps : list (string * Shoe.t)) :
  ~ In k (map fst ps) -> own_set k v ps = ps ++ [(k, v)].
Proof.
  induction ps as [|[k' v'] r IH]; simpl; intro H; [reflexivity|].
  destruct (k' =? k) eqn:E.
  - apply String.eqb_eq in E. tauto.
  - f_equal. apply IH. tauto.
Qed.

Lemma shoeMap_built (shoes : list Shoe.t) (acc : list (string * Shoe.t)) :
  NoDup (map fst acc ++ map Shoe.id shoes) ->
  (forall s, In s shoes -> Shoe.id s <> "__proto__") ->
  fold_left (fun m shoe => obj_set m (Shoe.id shoe) shoe) shoes (mkObject acc None)
  = mkObject (acc ++ map entry shoes) None.
Proof.
  revert acc. induction shoes as [|s r IH]; intros acc Hnd Hproto; simpl.
  - now rewrite app_nil_r.
  - unfold obj_set at 2.
    assert (Hs : (Shoe.id s =? "__proto__") = false).
    { apply String.eqb_neq. apply Hproto. now left. }
    rewrite Hs. cbn [own prototype].
    rewrite own_set_fresh.
    + rewrite IH.
      * now rewrite <- app_assoc.
      * rewrite map_app. cbn [map fst]. rewrite <- app_assoc. exact Hnd.
      * intros x Hx. apply Hproto. now right.
    + intro Hin. apply NoDup_remove_2 in Hnd. apply Hnd.
      apply in_or_app. now left.
Qed.

Lemma place_loop (order : list string) (props : list (string * Shoe.t)) (acc : list value) :
  (forall i, In i order -> plain_key i) ->
  fold_left place_step order (acc, mkObject props None)
  = (acc ++ map VShoe (fst (place order props)), mkObject (snd (place order props)) None).
Proof.
  revert props acc. induction order as [|i r IH]; intros props acc Hplain; simpl.
  - now rewrite app_nil_r.
  - rewrite (obj_get_plain props i) by (apply Hplain; now left).
    assert (Hr : forall j, In j r -> plain_key j) by (intros j Hj; apply Hplain; now right).
    destruct (own_get i props) as [s|]; cbn [ToBoolean].
    + unfold obj_delete. cbn [own prototype]. rewrite IH by exact Hr.
      destruct (place r (filter (fun e => negb (fst e =? i)) props)) as [p o].
      cbn [fst snd map]. now rewrite <- app_assoc.
    + apply IH. exact Hr.
Qed.

Lemma own_get_entries (l : list Shoe.t) (i : string) :
  own_get i (map entry l) = find (fun s => Shoe.id s =? i) l.
Proof.
  induction l as [|s r IH]; simpl; [reflexivity|]. now rewrite IH.
Qed.

Lemma filter_entries (l : list Shoe.t) (i : string) :
  filter (fun e => negb (fst e =? i)) (map entry l)
  = map entry (filter (fun s => negb (Shoe.id s =? i)) l).
Proof.
  induction l as [|s r IH]; simpl; [reflexivity|].
  destruct (Shoe.id s =? i); simpl; now rewrite IH.
Qed.

Lemma find_filter_other (l : list Shoe.t) (i j : string) :
  j <> i ->
  find (fun s => Shoe.id s =? j) (filter (fun s => negb (Shoe.id s =? i)) l)
  = find (fun s => Shoe.id s =? j) l.
Proof.
  intro Hne. induction l as [|s r IH]; simpl; [reflexivity|].
  destruct (Shoe.id s =? i) eqn:Ei; simpl.
  - apply String.eqb_eq in Ei.
    assert (Hj : (Shoe.id s =? j) = false) by (apply String.eqb_neq; congruence).
    now rewrite Hj.
  - destruct (Shoe.id s =? j); [reflexivity | exact IH].
Qed.

Lemma find_filter_same (l : list Shoe.t) (i : string) :
  find (fun s => Shoe.id s =? i) (filter (fun s => negb (Shoe.id s =? i)) l) = None.
Proof.
  induction l as [|s r IH]; simpl; [reflexivity|].
  destruct (Shoe.id s =? i) eqn:Ei; simpl; [exact IH|]. now rewrite Ei.
Qed.

Lemma flat_map_found_removed (l : list Shoe.t) (i : string) (order : list string) :
  flat_map (found l) (filter (fun j => negb (j =? i)) order)
  = flat_map (found (filter (fun s => negb (Shoe.id s =? i)) l)) order.
Proof.
  induction order as [|j r IH]; simpl; [reflexivity|].
  destruct (j =? i) eqn:E; simpl.
  - apply String.eqb_eq in E. subst j.
    assert (Hnil : found (filter (fun s => negb (Shoe.id s =? i)) l) i = [])
      by (unfold found; now rewrite find_filter_same).
    now rewrite Hnil.
  - apply String.eqb_neq in E. rewrite IH. f_equal.
    unfold found. now rewrite find_filter_other.
Qed.

Lemma flat_map_found_absent (l : list Shoe.t) (i : string) (order : list string) :
  find (fun s => Shoe.id s =? i) l = None ->
  flat_map (found l) (filter (fun j => negb (j =? i)) order) = flat_map (found l) order.
Proof.
  intro Hnone. induction order as [|j r IH]; simpl; [reflexivity|].
  destruct (j =? i) eqn:E; simpl.
  - apply String.eqb_eq in E. subst j.
    assert (Hnil : found l i = []) by (unfold found; now rewrite Hnone).
    now rewrite Hnil.
  - now rewrite IH.
Qed.

Lemma unlisted_removed (l : list Shoe.t) (i : string) (r : list string) :
  filter (unlisted r) (filter (fun s => negb (Shoe.id s =? i)) l)
  = filter (unlisted (i :: r)) l.
Proof.
  unfold unlisted. induction l as [|s l IHl]; simpl; [reflexivity|].
  destruct (Shoe.id s =? i) eqn:E; simpl.
  - exact IHl.
  - destruct (existsb (String.eqb (Shoe.id s)) r); simpl; now rewrite IHl.
Qed.

Lemma unlisted_absent (l : list Shoe.t) (i : string) (r : list string) :
  find (fun s => Shoe.id s =? i) l = None ->
  filter (unlisted r) l = filter (unlisted (i :: r)) l.
Proof.
  intro Hf. apply filter_ext_in. intros s Hs. unfold unlisted. cbn [existsb].
  now rewrite (proj1 (find_none_iff _ _) Hf s Hs).
Qed.

Lemma found_some (l : list Shoe.t) (i : string) (s : Shoe.t) :
  find (fun s => Shoe.id s =? i) l = Some s -> found l i = [s].
Proof. intro H. unfold found. now rewrite H. Qed.

Lemma found_none (l : list Shoe.t) (i : string) :
  find (fun s => Shoe.id s =? i) l = None -> found l i = [].
Proof. intro H. unfold found. now rewrite H. Qed.

(** The loop places, for each id of the order at its first occurrence, the
    shoe with that id, and leaves the shoes whose id the order lacks. *)
Lemma place_entries (order : list string) (l : list Shoe.t) :
  place order (map entry l)
  = (flat_map (found l) (first_occurrences order),
     map entry (filter (unlisted order) l)).
Proof.
  revert l. induction order as [|i r IH]; intro l.
  - simpl. f_equal. f_equal. induction l as [|s l' IHl]; simpl; [reflexivity|].
    now rewrite <- IHl.
  - cbn [place first_occurrences flat_map]. rewrite own_get_entries.
    destruct (find (fun s => Shoe.id s =? i) l) as [s|] eqn:Hf.
    + rewrite filter_entries, IH, (found_some _ _ _ Hf), flat_map_found_removed.
      cbn [app]. now rewrite unlisted_removed.
    + rewrite IH, (found_none _ _ Hf). cbn [app].
      now rewrite (flat_map_found_absent l i _ Hf), (unlisted_absent l i r Hf).
Qed.

Lemma found_split (l : list Shoe.t) (i : string) (s : Shoe.t) :
  NoDup (map Shoe.id l) ->
  find (fun s => Shoe.id s =? i) l = Some s ->
  Permutation (s :: filter (fun s => negb (Shoe.id s =? i)) l) l.
Proof.
  induction l as [|x r IH]; simpl; intros Hnd Hf; [discriminate|].
  inversion Hnd as [|? ? Hnotin Hnd']; subst.
  destruct (Shoe.id x =? i) eqn:E; simpl.
  - injection Hf as <-. apply String.eqb_eq in E. constructor.
    replace (filter (fun s => negb (Shoe.id s =? i)) r) with r; [apply Permutation_refl|].
    symmetry. clear IH Hnd Hnd'. induction r as [|y r IHr]; simpl; [reflexivity|].
    assert (Hy : (Shoe.id y =? i) = false).
    { apply String.eqb_neq. intro Hy. apply Hnotin. left. congruence. }
    rewrite Hy. simpl. f_equal. apply IHr. intro H. apply Hnotin. now right.
  - apply (perm_trans (perm_swap _ _ _)). constructor. now apply IH.
Qed.

(** The shoes placed and the shoes left are, together, the shoes. *)
Lemma placed_and_unlisted (order : list string) (l : list Shoe.t) :
  NoDup (map Shoe.id l) ->
  Permutation (flat_map (found l) (first_occurrences order) ++ filter (unlisted order) l) l.
Proof.
  revert l. induction order as [|i r IH]; intros l Hnd.
  - simpl. replace (filter (unlisted []) l) with l; [apply Permutation_refl|].
    induction l as [|s l' IHl]; simpl; [reflexivity|]. rewrite <- IHl; [reflexivity|].
    now inversion Hnd.
  - cbn [first_occurrences flat_map].
    destruct (find (fun s => Shoe.id s =? i) l) as [s|] eqn:Hf.
    + rewrite (found_some _ _ _ Hf), flat_map_found_removed, <- unlisted_removed.
      cbn [app]. apply (perm_trans (l' := s :: filter (fun s => negb (Shoe.id s =? i)) l)).
      * constructor. apply IH. rewrite <- (filter_map_id Shoe.id (fun j => negb (j =? i))).
        now apply NoDup_filter.
      * now apply found_split.
    + rewrite (found_none _ _ Hf), (flat_map_found_absent l i _ Hf), <- (unlisted_absent l i r Hf).
      cbn [app]. now apply IH.
Qed.

Lemma insert_by_index_perm {A} (n : N) (v : A) (l : list (N * A)) :
  Permutation (map snd (insert_by_index n v l)) (v :: map snd l).
Proof.
  induction l as [|[m w] r IH]; simpl; [apply Permutation_refl|].
  destruct (n <? m)%N; simpl; [apply Permutation_refl|].
  apply (perm_trans (l' := w :: v :: map snd r)); [now constructor | apply perm_swap].
Qed.

Lemma indexed_perm {A} (ps : list (string * A)) :
  Permutation (map snd (indexed ps)) (map snd (filter (fun p => is_index (fst p)) ps)).
Proof.
  induction ps as [|[k v] r IH]; simpl; [constructor|].
  unfold is_index. cbn [fst]. destruct (array_index k) as [n|]; simpl.
  - apply (perm_trans (insert_by_index_perm n v (indexed r))). now constructor.
  - exact IH.
Qed.

Lemma filter_partition_perm {A} (p : A -> bool) (l : list A) :
  Permutation (filter p l ++ filter (fun x => negb (p x)) l) l.
Proof.
  induction l as [|x r IH]; simpl; [constructor|].
  destruct (p x); simpl.
  - now constructor.
  - apply Permutation_sym, Permutation_cons_app, Permutation_sym, IH.
Qed.

(** [Object.values] lists every own property once. *)
Lemma Object_values_perm (o : object) : Permutation (Object_values o) (map snd (own o)).
Proof.
  unfold Object_values.
  apply (perm_trans (l' := map snd (filter (fun p => is_index (fst p)) (own o))
                            ++ map snd (filter (fun p => negb (is_index (fst p))) (own o)))).
  - apply Permutation_app_tail, indexed_perm.
  - rewrite <- map_app. apply Permutation_map, filter_partition_perm.
Qed.

Lemma map_snd_entries (l : list Shoe.t) : map snd (map entry l) = l.
Proof. rewrite map_map. apply map_id. Qed.

Lemma getShoesOrdered_eq (ls : localStorage) :
  Storage.getShoesOrdered ls
  = let shoeMap :=
      fold_left (fun m shoe => obj_set m (Shoe.id shoe) shoe) (listShoes ls) empty_object in
    let state := fold_left place_step (getOrder ls) ([], shoeMap) in
    Normal (fst state ++ map VShoe (Object_values (snd state))) ls.
Proof.
  unfold Storage.getShoesOrdered. js_run. cbv zeta. unfold place_step.
  match goal with
  | |- context [fold_left ?f (getOrder ls) ?init] =>
      destruct (fold_left f (getOrder ls) init) as [ordered shoeMap]
  end.
  reflexivity.
Qed.

(** X14 (what holds of C10).  For an order list none of whose entries is a
    key that [Object.prototype] answers to, and shoes with distinct ids: the
    result holds the shoes only, each once; first, for each id of the order
    list at its first occurrence, the shoe with that id, if there is one;
    then the shoes whose id the order list lacks. *)
Lemma getShoesOrdered_plain_order (ls : localStorage) :
  NoDup (map Shoe.id (listShoes ls)) ->
  (forall s, In s (listShoes ls) -> Shoe.id s <> "__proto__") ->
  (forall i, In i (getOrder ls) -> plain_key i) ->
  exists tail,
    Storage.getShoesOrdered ls
    = Normal
        (map VShoe
           (flat_map (found (listShoes ls)) (first_occurrences (getOrder ls)) ++ tail))
        ls
    /\ Permutation tail (filter (unlisted (getOrder ls)) (listShoes ls))
    /\ Permutation
         (flat_map (found (listShoes ls)) (first_occurrences (getOrder ls)) ++ tail)
         (listShoes ls).
Proof.
  intros Hnd Hproto Hplain.
  rewrite getShoesOrdered_eq. cbv zeta. unfold empty_object.
  rewrite (shoeMap_built (listShoes ls) []) by assumption.
  cbn [app]. rewrite place_loop by assumption. rewrite place_entries. cbn [fst snd app].
  set (rest := mkObject (map entry (filter (unlisted (getOrder ls)) (listShoes ls))) None).
  assert (Htail : Permutation (Object_values rest)
                    (filter (unlisted (getOrder ls)) (listShoes ls))).
  { apply (perm_trans (Object_values_perm rest)). unfold rest. cbn [own].
    rewrite map_snd_entries. apply Permutation_refl. }
  exists (Object_values rest). split; [now rewrite map_app|]. split; [exact Htail|].
  apply (perm_trans (l' := flat_map (found (listShoes ls)) (first_occurrences (getOrder ls))
                           ++ filter (unlisted (getOrder ls)) (listShoes ls))).
  - now apply Permutation_app_head.
  - now apply placed_and_unlisted.
Qed.

(** C10, where the code departs from it.  With one shoe stored and the order
    [["constructor"; "a1"]] saved, [getShoesOrdered] returns two elements: the
    function that [shoeMap["constructor"]] inherits from [Object.prototype],
    then the shoe.  The id ["constructor"] matches no shoe and yet
    contributes an element. *)
Theorem getShoesOrdered_lists_inherited_member :
  let a := Shoe.make "a1" "Pegasus" false None "t1" in
  let ls :=
    run (SetOrder ["constructor"; "a1"])
      (run (AddShoe (mkEnv "a1" "t1") "Pegasus" None) empty_storage) in
  reachable ls
  /\ listShoes ls = [a]
  /\ Storage.getShoesOrdered ls = Normal [VBuiltin "constructor"; VShoe a] ls.
Proof. split; [repeat constructor|]. split; reflexivity. Qed.

(** * Further properties of the store *)

(** ** Adding and looking up a shoe *)

Lemma existsb_names_false (ls : localStorage) (name : string) :
  (forall s, In s (listShoes ls) -> toLowerCase (Shoe.name s) <> toLowerCase name) ->
  existsb (fun shoe => toLowerCase (Shoe.name shoe) =? toLowerCase name) (listShoes ls)
  = false.
Proof.
  intro H. apply existsb_false_iff. intros s Hs. apply String.eqb_neq. now apply H.
Qed.

Lemma getShoeById_eq ls id :
  Storage.getShoeById id ls
  = Normal (find (fun shoe => Shoe.id shoe =? id) (listShoes ls)) ls.
Proof. unfold Storage.getShoeById. js_run. reflexivity. Qed.

Lemma getWorkoutById_eq ls id :
  Storage.getWorkoutById id ls
  = Normal (find (fun workout => Workout.id workout =? id) (listWorkouts ls)) ls.
Proof. unfold Storage.getWorkoutById. js_run. reflexivity. Qed.

Lemma find_snoc_fresh {A} (p : A -> bool) (l : list A) (x : A) :
  (forall y, In y l -> p y = false) -> p x = true -> find p (l ++ [x]) = Some x.
Proof. intros. now apply find_split. Qed.

Lemma not_in_ids_eqb (l : list Shoe.t) (i : string) :
  ~ In i (map Shoe.id l) -> forall s, In s l -> (Shoe.id s =? i) = false.
Proof.
  intros H s Hs. apply String.eqb_neq. intros <-. apply H. now apply in_map.
Qed.

(** X1.  What [addShoe] does in full.  If an existing name equals the
    argument ignoring case it throws and writes nothing.  Otherwise it returns
    the new shoe (generated id, trimmed name, not retired), appends it to the
    shoes, leaves the workouts alone, and appends the id to the stored order;
    when no order was stored, the order it writes is the ids of the shoes
    with the new shoe already among them, plus the new id once more. *)
Theorem addShoe_outcome (e : Env) (ls : localStorage) (name : string)
  (imageData : option string) :
  ((exists s, In s (listShoes ls) /\ toLowerCase (Shoe.name s) = toLowerCase name) ->
   Storage.addShoe e name imageData ls
   = Throw (Error "A shoe with this name already exists") ls)
  /\
  ((forall s, In s (listShoes ls) -> toLowerCase (Shoe.name s) <> toLowerCase name) ->
   exists ls',
     Storage.addShoe e name imageData ls
     = Normal (Shoe.make (generateId e) (trim name) false imageData (toISOString e)) ls'
     /\ listShoes ls'
        = listShoes ls
            ++ [Shoe.make (generateId e) (trim name) false imageData (toISOString e)]
     /\ workouts_item ls' = workouts_item ls
     /\ (forall order, shoe_order_item ls = Some order ->
                       getOrder ls' = order ++ [generateId e])
     /\ (shoe_order_item ls = None ->
         getOrder ls' = map Shoe.id (listShoes ls) ++ [generateId e; generateId e])).
Proof.
  rewrite addShoe_eq. split.
  - intros [s [Hs Hn]].
    replace (existsb _ (listShoes ls)) with true; [reflexivity|].
    symmetry. apply existsb_exists. exists s. split; [exact Hs | now apply String.eqb_eq].
  - intro Hnone. rewrite (existsb_names_false ls name Hnone). cbv zeta.
    eexists. split; [reflexivity|]. split; [reflexivity|]. split; [reflexivity|].
    unfold getOrder. cbn [shoe_order_item]. split.
    + intros order ->. reflexivity.
    + intros ->. rewrite map_app, <- app_assoc. reflexivity.
Qed.

Lemma addShoe_outcome_example :
  let a := Shoe.make "a1" "Pegasus" false None "t1" in
  let ls := mkStorage (Some [a]) None (Some ["a1"]) in
  Storage.addShoe (mkEnv "b2" "t2") "PEGASUS" None ls
  = Throw (Error "A shoe with this name already exists") ls
  /\ exists ls',
      Storage.addShoe (mkEnv "b2" "t2") "  Ghost " None ls
      = Normal (Shoe.make "b2" "Ghost" false None "t2") ls'
      /\ getOrder ls' = ["a1"; "b2"].
Proof.
  intros a ls.
  destruct (addShoe_outcome (mkEnv "b2" "t2") ls "PEGASUS" None) as [Hthrow _].
  destruct (addShoe_outcome (mkEnv "b2" "t2") ls "  Ghost " None) as [_ Hadd].
  split.
  - apply Hthrow. exists a. split; [now left | reflexivity].
  - destruct Hadd as [ls' [H1 [_ [_ [H2 _]]]]].
    + intros s [<-|[]]. discriminate.
    + exists ls'. split; [exact H1 | exact (H2 ["a1"] eq_refl)].
Defined.

(** X2.  A shoe that was added is found again under its id: when [addShoe]
    does not throw and the generated id is not the id of a shoe already
    stored, [getShoeById] on the returned id gives the returned shoe, whose
    name is the trimmed argument and which is not retired. *)
Theorem addShoe_then_getShoeById (e : Env) (ls : localStorage) (name : string)
  (imageData : option string) :
  (forall s, In s (listShoes ls) -> toLowerCase (Shoe.name s) <> toLowerCase name) ->
  ~ In (generateId e) (map Shoe.id (listShoes ls)) ->
  exists shoe ls',
    Storage.addShoe e name imageData ls = Normal shoe ls'
    /\ Storage.getShoeById (Shoe.id shoe) ls' = Normal (Some shoe) ls'
    /\ Shoe.name shoe = trim name
    /\ Shoe.retired shoe = false.
Proof.
  intros Hnone Hfresh. rewrite addShoe_eq, (existsb_names_false ls name Hnone). cbv zeta.
  do 2 eexists. split; [reflexivity|]. split; [|split; reflexivity].
  rewrite getShoeById_eq, listShoes_stored. f_equal. cbn [Shoe.id].
  apply find_snoc_fresh.
  - now apply not_in_ids_eqb.
  - apply String.eqb_refl.
Qed.

Lemma addShoe_then_getShoeById_example :
  let a := Shoe.make "a1" "Pegasus" false None "t1" in
  let ls := mkStorage (Some [a]) None (Some ["a1"]) in
  exists shoe ls',
    Storage.addShoe (mkEnv "b2" "t2") " Ghost" None ls = Normal shoe ls'
    /\ Storage.getShoeById (Shoe.id shoe) ls' = Normal (Some shoe) ls'
    /\ Shoe.name shoe = "Ghost"
    /\ Shoe.retired shoe = false.
Proof.
  intros a ls.
  apply (addShoe_then_getShoeById (mkEnv "b2" "t2") ls " Ghost" None).
  - intros s [<-|[]]. discriminate.
  - cbn. intuition discriminate.
Defined.

(** ** Retiring *)

(** X3.  [retireShoe] changes one thing: the [retired] flag of the first shoe
    with the given id becomes [true].  Every other shoe, the workouts and the
    order stay as they were, and [getShoeById] then returns the retired
    shoe. *)
Theorem retireShoe_marks_first_match (ls : localStorage) (id : string)
  (before : list Shoe.t) (s : Shoe.t) (after : list Shoe.t) :
  listShoes ls = before ++ s :: after ->
  Shoe.id s = id ->
  (forall x, In x before -> Shoe.id x <> id) ->
  exists ls',
    Storage.retireShoe id ls = Normal tt ls'
    /\ listShoes ls' = before ++ Shoe.set_retired true s :: after
    /\ workouts_item ls' = workouts_item ls
    /\ shoe_order_item ls' = shoe_order_item ls
    /\ Storage.getShoeById id ls' = Normal (Some (Shoe.set_retired true s)) ls'.
Proof.
  intros Hsplit Hid Hbefore.
  assert (Hb : forall y, In y before -> (Shoe.id y =? id) = false).
  { intros y Hy. apply String.eqb_neq. now apply Hbefore. }
  assert (Hs : (Shoe.id s =? id) = true) by now apply String.eqb_eq.
  rewrite retireShoe_eq, Hsplit.
  rewrite (find_split _ before after s Hb Hs).
  rewrite (assign_found_split _ _ before after s Hb Hs).
  eexists. split; [reflexivity|]. split; [reflexivity|].
  split; [reflexivity|]. split; [reflexivity|].
  rewrite getShoeById_eq, listShoes_stored. f_equal.
  apply find_split; [exact Hb | exact Hs].
Qed.

Lemma retireShoe_marks_example :
  let a := Shoe.make "a1" "Pegasus" false None "t1" in
  let b := Shoe.make "b2" "Ghost" false None "t2" in
  let ls := mkStorage (Some [a; b]) None (Some ["b2"; "a1"]) in
  exists ls',
    Storage.retireShoe "b2" ls = Normal tt ls'
    /\ listShoes ls' = [a; Shoe.make "b2" "Ghost" true None "t2"]
    /\ getOrder ls' = ["b2"; "a1"].
Proof.
  intros a b ls.
  destruct (retireShoe_marks_first_match ls "b2" [a] b [] eq_refl eq_refl)
    as [ls' [H1 [H2 [_ [H3 _]]]]].
  - intros x [<-|[]]. discriminate.
  - exists ls'. split; [exact H1|]. split; [exact H2|].
    unfold getOrder. now rewrite H3.
Defined.

(** ** Deleting shoes and workouts *)

Lemma filter_nil_iff {A} (p : A -> bool) (l : list A) :
  filter p l = [] <-> forall x, In x l -> p x = false.
Proof.
  induction l as [|x l IH]; simpl.
  - split; [intros _ y [] | reflexivity].
  - destruct (p x) eqn:E; split.
    + discriminate.
    + intro H. specialize (H x (or_introl eq_refl)). congruence.
    + intros H y [<-|Hy]; [exact E | now apply IH].
    + intro H. apply IH. intros y Hy. apply H. now right.
Qed.

(** X4.  [deleteShoe] never throws, and it returns [true] exactly when
    [getWorkoutsByShoe] finds no workout of the shoe; the total of a shoe
    that could be deleted is 0. *)
Theorem deleteShoe_true_iff_no_workouts (ls : localStorage) (id : string) :
  (exists deleted ls', Storage.deleteShoe id ls = Normal deleted ls')
  /\ ((exists ls', Storage.deleteShoe id ls = Normal true ls')
      <-> Storage.getWorkoutsByShoe id ls = Normal [] ls)
  /\ ((exists ls', Storage.deleteShoe id ls = Normal true ls')
      -> Storage.getTotalMiles id ls = Normal PrimFloat.zero ls).
Proof.
  rewrite deleteShoe_eq, getWorkoutsByShoe_eq, getTotalMiles_eq.
  destruct (existsb (fun w => Workout.shoeId w =? id) (listWorkouts ls)) eqn:He.
  - split; [eauto|].
    assert (Hne : filter (fun w => Workout.shoeId w =? id) (listWorkouts ls) <> []).
    { intro Hnil. apply existsb_exists in He. destruct He as [w [Hw Hp]].
      rewrite (proj1 (filter_nil_iff _ _) Hnil w Hw) in Hp. discriminate. }
    split; [split|].
    + intros [ls' H]. discriminate.
    + intro H. injection H as H. contradiction.
    + intros [ls' H]. discriminate.
  - split; [eauto|].
    assert (Hnil : filter (fun w => Workout.shoeId w =? id) (listWorkouts ls) = []).
    { apply filter_nil_iff. now apply existsb_false_iff. }
    rewrite Hnil. split; [split|]; eauto.
Qed.

Lemma deleteShoe_true_iff_example :
  let a := Shoe.make "a1" "Pegasus" false None "t1" in
  let w := Workout.make "w1" "b2" (Num 3%float) "2024-01-01" "t2" None in
  let ls := mkStorage (Some [a]) (Some [w]) (Some ["a1"]) in
  Storage.getTotalMiles "a1" ls = Normal 0%float ls
  /\ exists ls', Storage.deleteShoe "a1" ls = Normal true ls'.
Proof.
  intros a w ls.
  destruct (deleteShoe_true_iff_no_workouts ls "a1") as [_ [Hiff Htotal]].
  assert (H : exists ls', Storage.deleteShoe "a1" ls = Normal true ls').
  { apply Hiff. reflexivity. }
  split; [now apply Htotal | exact H].
Defined.

(** X5.  Logging a workout for a shoe blocks its deletion: right after
    [addWorkout(shoeId, ...)], [deleteShoe(shoeId)] returns [false] and writes
    nothing.  If no other workout referenced the shoe, deleting the new
    workout again makes [deleteShoe] return [true]. *)
Theorem addWorkout_blocks_deleteShoe (e : Env) (ls : localStorage) (shoeId : string)
  (miles : argument) (date : string) :
  Storage.deleteShoe shoeId (run (AddWorkout e shoeId miles date) ls)
  = Normal false (run (AddWorkout e shoeId miles date) ls)
  /\
  ((forall w, In w (listWorkouts ls) -> Workout.shoeId w <> shoeId) ->
   exists ls',
     Storage.deleteShoe shoeId
       (run (DeleteWorkout (generateId e)) (run (AddWorkout e shoeId miles date) ls))
     = Normal true ls').
Proof.
  split.
  - rewrite deleteShoe_eq. cbn [run]. rewrite addWorkout_eq. cbn [final].
    rewrite listWorkouts_pushed, existsb_app. cbn [existsb].
    cbn [Workout.JSON_roundtrip newWorkout Workout.shoeId].
    rewrite String.eqb_refl, orb_true_r. reflexivity.
  - intro Hnone. rewrite deleteShoe_eq.
    assert (He : existsb (fun w => Workout.shoeId w =? shoeId)
                   (listWorkouts
                      (run (DeleteWorkout (generateId e))
                         (run (AddWorkout e shoeId miles date) ls))) = false).
    { apply existsb_false_iff. intros w Hw.
      cbn [run] in Hw. unfold Storage.deleteWorkout in Hw.
      rewrite addWorkout_eq in Hw. cbn [final] in Hw.
      revert Hw. js_run. cbn [final]. unfold listWorkouts at 1. cbn [workouts_item].
      rewrite listWorkouts_pushed. intro Hw.
      apply in_map_iff in Hw. destruct Hw as [w0 [<- Hw0]].
      apply filter_In in Hw0. destruct Hw0 as [Hw0 Hkeep].
      cbn [Workout.JSON_roundtrip Workout.shoeId].
      apply in_app_or in Hw0. destruct Hw0 as [Hold|[<-|[]]].
      - apply String.eqb_neq. now apply Hnone.
      - cbn [Workout.JSON_roundtrip newWorkout Workout.id] in Hkeep.
        rewrite String.eqb_refl in Hkeep. discriminate. }
    rewrite He. eauto.
Qed.

Lemma addWorkout_blocks_deleteShoe_example :
  let a := Shoe.make "a1" "Pegasus" false None "t1" in
  let ls := mkStorage (Some [a]) None (Some ["a1"]) in
  let ls1 := run (AddWorkout (mkEnv "w1" "t2") "a1" 3%float "2024-01-01") ls in
  Storage.deleteShoe "a1" ls1 = Normal false ls1
  /\ exists ls', Storage.deleteShoe "a1" (run (DeleteWorkout "w1") ls1) = Normal true ls'.
Proof.
  intros a ls ls1.
  destruct (addWorkout_blocks_deleteShoe (mkEnv "w1" "t2") ls "a1" 3%float "2024-01-01")
    as [H1 H2].
  split; [exact H1|]. apply H2. intros w [].
Defined.

Lemma deleteWorkout_eq ls id :
  Storage.deleteWorkout id ls
  = Normal tt
      (mkStorage (shoes_item ls)
         (Some (filter (fun w => negb (Workout.id w =? id)) (listWorkouts ls)))
         (shoe_order_item ls)).
Proof. unfold Storage.deleteWorkout. js_run. reflexivity. Qed.

Lemma listWorkouts_filtered (ls : localStorage) (p : Workout.t -> bool)
  (s : option (list Shoe.t)) (o : option (list string)) :
  (forall w, p (Workout.JSON_roundtrip w) = p w) ->
  listWorkouts (mkStorage s (Some (filter p (listWorkouts ls))) o)
  = filter p (listWorkouts ls).
Proof.
  intro Hp. unfold listWorkouts at 1. cbn [workouts_item].
  rewrite <- (listWorkouts_roundtrip ls) at 2.
  generalize (listWorkouts ls). intro l.
  induction l as [|w l IH]; simpl; [reflexivity|].
  rewrite Hp. destruct (p w); simpl; now rewrite IH.
Qed.

(** X6.  [deleteWorkout] never throws; afterwards the workouts are the
    former ones without those that have the given id, in their order, no
    workout is found under that id, and the shoes and the order are as they
    were.  Deleting a workout right after logging it, its generated id being
    new among the workouts, gives back the former workouts. *)
Theorem deleteWorkout_removes (ls : localStorage) (id : string) :
  (exists ls',
      Storage.deleteWorkout id ls = Normal tt ls'
      /\ listWorkouts ls' = filter (fun w => negb (Workout.id w =? id)) (listWorkouts ls)
      /\ Storage.getWorkoutById id ls' = Normal None ls'
      /\ shoes_item ls' = shoes_item ls
      /\ shoe_order_item ls' = shoe_order_item ls)
  /\
  (forall e shoeId miles date,
      generateId e = id ->
      ~ In id (map Workout.id (listWorkouts ls)) ->
      listWorkouts (run (DeleteWorkout id) (run (AddWorkout e shoeId miles date) ls))
      = listWorkouts ls).
Proof.
  assert (Hrt : forall w, negb (Workout.id (Workout.JSON_roundtrip w) =? id)
                          = negb (Workout.id w =? id)) by reflexivity.
  split.
  - rewrite deleteWorkout_eq. eexists. split; [reflexivity|].
    rewrite (listWorkouts_filtered ls _ _ _ Hrt).
    split; [reflexivity|]. split; [|split; reflexivity].
    rewrite getWorkoutById_eq, (listWorkouts_filtered ls _ _ _ Hrt). f_equal.
    apply find_none_iff. intros w Hw. apply filter_In in Hw. destruct Hw as [_ Hw].
    now apply negb_true_iff in Hw.
  - intros e shoeId miles date Hid Hfresh. cbn [run].
    rewrite deleteWorkout_eq. cbn [final].
    rewrite (listWorkouts_filtered _ _ _ _ Hrt).
    rewrite addWorkout_eq. cbn [final]. rewrite listWorkouts_pushed, filter_app.
    cbn [filter Workout.JSON_roundtrip newWorkout Workout.id].
    rewrite Hid, String.eqb_refl. cbn [negb]. rewrite app_nil_r.
    clear - Hfresh. induction (listWorkouts ls) as [|w l IH]; simpl; [reflexivity|].
    assert (Hw : (Workout.id w =? id) = false).
    { apply String.eqb_neq. intro E. apply Hfresh. left. exact E. }
    rewrite Hw. simpl. f_equal. apply IH. intro H. apply Hfresh. now right.
Qed.

Lemma deleteWorkout_removes_example :
  let w1 := Workout.make "w1" "a1" (Num 3%float) "2024-01-01" "t1" None in
  let ls := mkStorage None (Some [w1]) None in
  listWorkouts
    (run (DeleteWorkout "w2") (run (AddWorkout (mkEnv "w2" "t2") "a1" 5%float "2024-01-02") ls))
  = [w1].
Proof.
  intros w1 ls.
  destruct (deleteWorkout_removes ls "w2") as [_ H].
  apply (H (mkEnv "w2" "t2") "a1" 5%float "2024-01-02" eq_refl).
  cbn. intuition discriminate.
Defined.



(** ** Reset *)

(** X8.  [clearAll] takes any state to that of a fresh profile: every list
    operation then returns the empty array, every total is 0, [addShoe]
    accepts every name and [deleteShoe] returns [true] for every id. *)
Theorem clearAll_empties (ls : localStorage) :
  Storage.clearAll ls = Normal tt empty_storage
  /\ Storage.getShoes (run ClearAll ls) = Normal [] (run ClearAll ls)
  /\ Storage.getWorkouts (run ClearAll ls) = Normal [] (run ClearAll ls)
  /\ Storage.getShoeOrder (run ClearAll ls) = Normal [] (run ClearAll ls)
  /\ Storage.getShoesOrdered (run ClearAll ls) = Normal [] (run ClearAll ls)
  /\ (forall id,
        Storage.getTotalMiles id (run ClearAll ls)
        = Normal PrimFloat.zero (run ClearAll ls))
  /\ (forall e name imageData,
        exists shoe ls',
          Storage.addShoe e name imageData (run ClearAll ls) = Normal shoe ls'
          /\ listShoes ls' = [shoe])
  /\ (forall id, exists ls', Storage.deleteShoe id (run ClearAll ls) = Normal true ls').
Proof.
  split; [reflexivity|]. change (run ClearAll ls) with empty_storage.
  repeat split.
  - intros e name imageData. rewrite addShoe_eq. cbn [listShoes shoes_item empty_storage existsb].
    cbv zeta. do 2 eexists. split; reflexivity.
  - intro id. rewrite deleteShoe_eq. cbn [listWorkouts workouts_item empty_storage existsb].
    eexists. reflexivity.
Qed.

(** ** White space and case *)

Lemma trimStart_clean (s : string) : starts_clean (trimStart s).
Proof.
  induction s as [|c r IH]; simpl; [exact I|].
  destruct (isWhiteSpace c) eqn:E; [exact IH | exact E].
Qed.

Lemma trimStart_of_clean (s : string) : starts_clean s -> trimStart s = s.
Proof. destruct s as [|c r]; simpl; [reflexivity|]. now intros ->. Qed.

Lemma trimEnd_clean (s : string) : starts_clean s -> starts_clean (trimEnd s).
Proof.
  destruct s as [|c r]; simpl; [exact id|]. intro Hc.
  destruct (trimEnd r); [rewrite Hc|]; exact Hc.
Qed.

Lemma trimEnd_idem (s : string) : trimEnd (trimEnd s) = trimEnd s.
Proof.
  induction s as [|c r IH]; simpl; [reflexivity|].
  destruct (trimEnd r) as [|d r'] eqn:E.
  - destruct (isWhiteSpace c) eqn:Hc; simpl; [reflexivity | now rewrite Hc].
  - change (trimEnd (String c (String d r'))) with
      (match trimEnd (String d r') with
       | EmptyString => if isWhiteSpace c then EmptyString else String c EmptyString
       | r'' => String c r''
       end).
    now rewrite IH.
Qed.

(** [trim] is idempotent. *)
Lemma trim_idem (s : string) : trim (trim s) = trim s.
Proof.
  unfold trim.
  rewrite (trimStart_of_clean (trimEnd (trimStart s))).
  - apply trimEnd_idem.
  - apply trimEnd_clean, trimStart_clean.
Qed.

Lemma isWhiteSpace_lower_char (c : ascii) : isWhiteSpace (lower_char c) = isWhiteSpace c.
Proof. destruct c as [[] [] [] [] [] [] [] []]; reflexivity. Qed.

Lemma trimStart_toLowerCase (s : string) :
  trimStart (toLowerCase s) = toLowerCase (trimStart s).
Proof.
  induction s as [|c r IH]; simpl; [reflexivity|].
  rewrite isWhiteSpace_lower_char. destruct (isWhiteSpace c); [exact IH | reflexivity].
Qed.

Lemma trimEnd_toLowerCase (s : string) :
  trimEnd (toLowerCase s) = toLowerCase (trimEnd s).
Proof.
  induction s as [|c r IH]; simpl; [reflexivity|].
  rewrite IH, isWhiteSpace_lower_char.
  destruct (trimEnd r); simpl; [destruct (isWhiteSpace c)|]; reflexivity.
Qed.

(** Trimming and lower-casing commute. *)
Lemma trim_toLowerCase (s : string) : trim (toLowerCase s) = toLowerCase (trim s).
Proof. unfold trim. now rewrite trimStart_toLowerCase, trimEnd_toLowerCase. Qed.

(** ** Invariants of the shoes *)

(** X9.  Stored names carry no surrounding white space, and every operation
    keeps it so. *)
Theorem names_trimmed_maintained (o : operation) (ls : localStorage) :
  names_trimmed ls -> names_trimmed (run o ls).
Proof.
  intros Htrim.
  destruct o as [e name img|id|id|order|e sid miles date|e id sid miles date|id| ].
  - cbn [run]. rewrite addShoe_eq.
    destruct (existsb _ (listShoes ls)); cbn [final]; [exact Htrim|].
    intros s Hs. rewrite listShoes_stored in Hs. apply in_app_or in Hs.
    destruct Hs as [Hs|[<-|[]]]; [now apply Htrim|]. apply trim_idem.
  - cbn [run]. rewrite retireShoe_eq. cbn [final].
    destruct (find _ (listShoes ls)); [|exact Htrim].
    intros s Hs. rewrite listShoes_stored in Hs. apply in_assign_found in Hs.
    destruct Hs as [Hs|[x [Hx ->]]]; [now apply Htrim|].
    unfold Shoe.set_retired. cbn [Shoe.name]. now apply Htrim.
  - cbn [run]. rewrite deleteShoe_eq.
    destruct (existsb _ (listWorkouts ls)); cbn [final]; [exact Htrim|].
    intros s Hs. rewrite listShoes_stored in Hs. apply filter_In in Hs. now apply Htrim.
  - exact Htrim.
  - cbn [run]. rewrite addWorkout_eq. exact Htrim.
  - unfold names_trimmed, listShoes. cbn [run].
    rewrite (proj1 (updateWorkout_shoes e ls id sid miles date)). exact Htrim.
  - exact Htrim.
  - intros s [].
Qed.

Lemma names_trimmed_example :
  names_trimmed (run (AddShoe (mkEnv "a1" "t1") "  Pegasus  " None) empty_storage).
Proof.
  apply names_trimmed_maintained. intros s [].
Defined.

(** X10.  [addShoe] never refuses a name wrongly: with the stored names
    trimmed, whenever it throws, some stored name equals the trimmed argument
    ignoring case. *)
Theorem addShoe_throws_only_for_duplicates (e : Env) (ls : localStorage) (name : string)
  (imageData : option string) (err : exn) (ls' : localStorage) :
  names_trimmed ls ->
  Storage.addShoe e name imageData ls = Throw err ls' ->
  ls' = ls
  /\ exists s, In s (listShoes ls)
               /\ toLowerCase (Shoe.name s) = toLowerCase (trim name).
Proof.
  intros Htrim. rewrite addShoe_eq.
  destruct (existsb _ (listShoes ls)) eqn:He; [|discriminate].
  intro H. injection H as _ <-. split; [reflexivity|].
  apply existsb_exists in He. destruct He as [s [Hs Hn]]. apply String.eqb_eq in Hn.
  exists s. split; [exact Hs|].
  rewrite <- trim_toLowerCase, <- Hn, trim_toLowerCase. now rewrite (Htrim s Hs).
Qed.

Lemma addShoe_throws_only_for_duplicates_example :
  let ls := run (AddShoe (mkEnv "a1" "t1") "Pegasus" None) empty_storage in
  exists s, In s (listShoes ls) /\ toLowerCase (Shoe.name s) = toLowerCase (trim "PEGASUS").
Proof.
  intro ls.
  apply (addShoe_throws_only_for_duplicates (mkEnv "b2" "t2") ls "PEGASUS" None
           (Error "A shoe with this name already exists") ls).
  - intros s [<-|[]]. reflexivity.
  - reflexivity.
Defined.

(** X12.  Shoe ids stay pairwise distinct under every operation, as long as
    [addShoe] draws an id no current shoe has. *)
Theorem shoe_ids_distinct_maintained (o : operation) (ls : localStorage) :
  fresh_id o ls ->
  NoDup (map Shoe.id (listShoes ls)) ->
  NoDup (map Shoe.id (listShoes (run o ls))).
Proof.
  intros Hfresh Hnd.
  destruct o as [e name img|id|id|order|e sid miles date|e id sid miles date|id| ].
  - cbn [run]. rewrite addShoe_eq.
    destruct (existsb _ (listShoes ls)); cbn [final]; [exact Hnd|].
    rewrite listShoes_stored, map_app. cbn [map Shoe.id]. now apply NoDup_snoc.
  - cbn [run]. rewrite retireShoe_eq. cbn [final].
    destruct (find _ (listShoes ls)); [|exact Hnd].
    rewrite listShoes_stored. now rewrite map_assign_found by reflexivity.
  - cbn [run]. rewrite deleteShoe_eq.
    destruct (existsb _ (listWorkouts ls)); cbn [final]; [exact Hnd|].
    rewrite listShoes_stored.
    rewrite <- (filter_map_id Shoe.id (fun i => negb (i =? id))). now apply NoDup_filter.
  - exact Hnd.
  - cbn [run]. rewrite addWorkout_eq. exact Hnd.
  - unfold listShoes. cbn [run].
    rewrite (proj1 (updateWorkout_shoes e ls id sid miles date)). exact Hnd.
  - exact Hnd.
  - constructor.
Qed.

Lemma shoe_ids_distinct_example :
  let a := Shoe.make "a1" "Pegasus" false None "t1" in
  let ls := mkStorage (Some [a]) None (Some ["a1"]) in
  NoDup (map Shoe.id (listShoes (run (AddShoe (mkEnv "b2" "t2") "Ghost" None) ls))).
Proof.
  intros a ls. apply shoe_ids_distinct_maintained.
  - cbn. intuition discriminate.
  - cbn. repeat constructor. intros [].
Defined.

(** ** Referential integrity *)

Lemma updateWorkout_eq e ls id shoeId miles date :
  Storage.updateWorkout e id shoeId miles date ls
  = Normal tt
      (match find (fun w => Workout.id w =? id) (listWorkouts ls) with
       | Some _ =>
           mkStorage (shoes_item ls)
             (Some
                (assign_found (fun w => Workout.id w =? id)
                   (fun workout =>
                      Workout.make (Workout.id workout) shoeId (Num (parseFloat miles))
                        date (Workout.createdAt workout) (Some (toISOString e)))
                   (listWorkouts ls)))
             (shoe_order_item ls)
       | None => ls
       end).
Proof.
  unfold Storage.updateWorkout. js_run.
  destruct (find _ (listWorkouts ls)); reflexivity.
Qed.

(** X13.  No operation leaves a workout without its shoe, provided
    [addWorkout] and [updateWorkout] are given the id of an existing shoe:
    if every workout references an existing shoe before, so it does after.
    In particular [deleteShoe] never removes a shoe that a workout
    references. *)
Theorem references_maintained (o : operation) (ls : localStorage) :
  references_shoe o ls -> references_exist ls -> references_exist (run o ls).
Proof.
  intros Hop Href.
  destruct o as [e name img|id|id|order|e sid miles date|e id sid miles date|id| ];
    cbn [references_shoe] in Hop.
  - cbn [run]. rewrite addShoe_eq.
    destruct (existsb _ (listShoes ls)); cbn [final]; [exact Href|].
    intros w Hw. rewrite listShoes_stored, map_app. apply in_or_app. left.
    now apply Href.
  - cbn [run]. rewrite retireShoe_eq. cbn [final].
    destruct (find _ (listShoes ls)); [|exact Href].
    intros w Hw. rewrite listShoes_stored.
    rewrite map_assign_found by reflexivity. now apply Href.
  - cbn [run]. rewrite deleteShoe_eq.
    destruct (existsb _ (listWorkouts ls)) eqn:He; cbn [final]; [exact Href|].
    intros w Hw. rewrite listShoes_stored.
    change (listWorkouts (mkStorage
              (Some (filter (fun s => negb (Shoe.id s =? id)) (listShoes ls)))
              (workouts_item ls)
              (Some (filter (fun shoeId => negb (shoeId =? id)) (getOrder ls)))))
      with (listWorkouts ls) in Hw.
    rewrite <- (filter_map_id Shoe.id (fun i => negb (i =? id))).
    apply filter_In. split; [now apply Href|].
    apply (proj1 (existsb_false_iff _ _) He) in Hw. now rewrite Hw.
  - exact Href.
  - cbn [run]. rewrite addWorkout_eq. cbn [final].
    intros w Hw. rewrite listWorkouts_pushed in Hw.
    change (listShoes (mkStorage (shoes_item ls)
              (Some (listWorkouts ls ++ [newWorkout e sid miles date]))
              (shoe_order_item ls))) with (listShoes ls).
    apply in_app_or in Hw. destruct Hw as [Hw|[<-|[]]]; [now apply Href | exact Hop].
  - cbn [run]. rewrite updateWorkout_eq. cbn [final].
    destruct (find _ (listWorkouts ls)); [|exact Href].
    intros w Hw. unfold listWorkouts in Hw at 1. cbn [workouts_item] in Hw.
    apply in_map_iff in Hw. destruct Hw as [w0 [<- Hw0]].
    change (listShoes (mkStorage (shoes_item ls) _ (shoe_order_item ls)))
      with (listShoes ls).
    cbn [Workout.JSON_roundtrip Workout.shoeId].
    apply in_assign_found in Hw0. destruct Hw0 as [Hw0|[x [Hx ->]]].
    + now apply Href.
    + exact Hop.
  - cbn [run]. unfold Storage.deleteWorkout. js_run. cbn [final].
    intros w Hw. unfold listWorkouts in Hw at 1. cbn [workouts_item] in Hw.
    apply in_map_iff in Hw. destruct Hw as [w0 [<- Hw0]].
    apply filter_In in Hw0. destruct Hw0 as [Hw0 _].
    cbn [Workout.JSON_roundtrip Workout.shoeId]. now apply Href.
  - intros w [].
Qed.

Lemma references_maintained_example :
  let a := Shoe.make "a1" "Pegasus" false None "t1" in
  let b := Shoe.make "b2" "Ghost" false None "t2" in
  let w := Workout.make "w1" "a1" (Num 3%float) "2024-01-01" "t3" None in
  let ls := mkStorage (Some [a; b]) (Some [w]) (Some ["a1"; "b2"]) in
  references_exist (run (DeleteShoe "b2") ls)
  /\ references_exist (run (DeleteShoe "a1") ls)
  /\ references_exist (run (AddWorkout (mkEnv "w2" "t4") "b2" 2%float "2024-01-02") ls).
Proof.
  intros a b w ls.
  assert (Href : references_exist ls).
  { intros x [<-|[]]. cbn. now left. }
  split; [|split]; apply references_maintained; try exact Href; try exact I.
  cbn. right. now left.
Defined.

(** ** The merged view on a well-kept order *)

Lemma getShoesOrdered_plain_order_example :
  let a := Shoe.make "a1" "Pegasus" false None "t1" in
  let b := Shoe.make "b2" "Ghost" false None "t2" in
  let c := Shoe.make "c3" "Clifton" false None "t3" in
  let ls := mkStorage (Some [a; b; c]) None (Some ["b2"; "zz"; "b2"; "a1"]) in
  Storage.getShoesOrdered ls = Normal [VShoe b; VShoe a; VShoe c] ls.
Proof.
  intros a b c ls.
  destruct (getShoesOrdered_plain_order ls) as [tail [H1 [H2 _]]].
  - cbn. repeat constructor; cbn; intuition discriminate.
  - intros s [<-|[<-|[<-|[]]]]; discriminate.
  - intros i [<-|[<-|[<-|[<-|[]]]]]; split; cbn; intuition discriminate.
  - rewrite H1. f_equal.
    cbn in H2. apply Permutation_sym, Permutation_length_1_inv in H2. now subst tail.
Defined.

Lemma obj_get_own (props : list (string * Shoe.t)) (proto : option Shoe.t)
  (k : string) (s : Shoe.t) :
  own_get k props = Some s -> obj_get (mkObject props proto) k = VShoe s.
Proof. intro H. unfold obj_get. cbn [own]. now rewrite H. Qed.

Lemma own_get_filter_other (props : list (string * Shoe.t)) (i j : string) :
  j <> i ->
  own_get j (filter (fun e => negb (fst e =? i)) props) = own_get j props.
Proof.
  intro Hne. induction props as [|[k v] r IH]; simpl; [reflexivity|].
  destruct (k =? i) eqn:Ei; simpl.
  - apply String.eqb_eq in Ei. subst k.
    assert (Hj : (i =? j) = false) by (apply String.eqb_neq; congruence).
    now rewrite Hj.
  - destruct (k =? j); [reflexivity | exact IH].
Qed.

(** The loop when every id of the order is, at its turn, an own property. *)
Lemma place_loop_listed (order : list string) (props : list (string * Shoe.t))
  (acc : list value) :
  NoDup order ->
  (forall i, In i order -> own_get i props <> None) ->
  fold_left place_step order (acc, mkObject props None)
  = (acc ++ map VShoe (fst (place order props)), mkObject (snd (place order props)) None).
Proof.
  revert props acc. induction order as [|i r IH]; intros props acc Hnd Hown; simpl.
  - now rewrite app_nil_r.
  - inversion Hnd as [|? ? Hnotin Hnd']; subst.
    destruct (own_get i props) as [s|] eqn:Hi.
    + rewrite (obj_get_own props None i s Hi). cbn [ToBoolean].
      unfold obj_delete. cbn [own prototype]. rewrite IH.
      * destruct (place r (filter (fun e => negb (fst e =? i)) props)) as [p o].
        cbn [fst snd map]. now rewrite <- app_assoc.
      * exact Hnd'.
      * intros j Hj. rewrite own_get_filter_other.
        -- apply Hown. now right.
        -- intros ->. contradiction.
    + exfalso. apply (Hown i); [now left | exact Hi].
Qed.

Lemma first_occurrences_NoDup (l : list string) : NoDup l -> first_occurrences l = l.
Proof.
  induction l as [|i r IH]; intro Hnd; simpl; [reflexivity|].
  inversion Hnd as [|? ? Hnotin Hnd']; subst. rewrite (IH Hnd'). f_equal.
  clear - Hnotin. induction r as [|j r IH]; simpl; [reflexivity|].
  assert (Hj : (j =? i) = false).
  { apply String.eqb_neq. intros ->. apply Hnotin. now left. }
  rewrite Hj. simpl. f_equal. apply IH. intro H. apply Hnotin. now right.
Qed.

Lemma found_listed (l : list Shoe.t) (i : string) :
  In i (map Shoe.id l) -> exists s, found l i = [s] /\ Shoe.id s = i.
Proof.
  intro Hin. unfold found.
  destruct (find (fun s => Shoe.id s =? i) l) as [s|] eqn:Hf.
  - exists s. split; [reflexivity|]. apply find_some in Hf. now apply String.eqb_eq.
  - exfalso. apply in_map_iff in Hin. destruct Hin as [s [Hid Hs]].
    apply (proj1 (find_none_iff _ _) Hf) in Hs. apply String.eqb_neq in Hs. contradiction.
Qed.

Lemma map_id_flat_map_found (l : list Shoe.t) (order : list string) :
  (forall i, In i order -> In i (map Shoe.id l)) ->
  map Shoe.id (flat_map (found l) order) = order.
Proof.
  induction order as [|i r IH]; intro Hall; simpl; [reflexivity|].
  destruct (found_listed l i (Hall i (or_introl eq_refl))) as [s [Hs Hid]].
  rewrite Hs. cbn [app map]. rewrite Hid. f_equal. apply IH.
  intros j Hj. apply Hall. now right.
Qed.

Lemma unlisted_none (l : list Shoe.t) (order : list string) :
  (forall s, In s l -> In (Shoe.id s) order) -> filter (unlisted order) l = [].
Proof.
  intro Hall. induction l as [|s r IH]; simpl; [reflexivity|].
  assert (Hs : unlisted order s = false).
  { unfold unlisted. apply negb_false_iff. apply existsb_exists.
    exists (Shoe.id s). split; [apply Hall; now left | apply String.eqb_refl]. }
  rewrite Hs. apply IH. intros x Hx. apply Hall. now right.
Qed.

Lemma own_get_entries_listed (l : list Shoe.t) (i : string) :
  In i (map Shoe.id l) -> own_get i (map entry l) <> None.
Proof.
  intros Hin. rewrite own_get_entries.
  destruct (found_listed l i Hin) as [s [Hs _]]. unfold found in Hs.
  destruct (find (fun s => Shoe.id s =? i) l); [discriminate | discriminate].
Qed.

(** X15.  When the order holds every shoe id exactly once and nothing else
    (ids distinct, none of them ["__proto__"]), [getShoesOrdered] returns
    the shoes, each once, in exactly that order; whether an id coincides
    with a member of [Object.prototype] then makes no difference. *)
Theorem getShoesOrdered_follows_exact_order (ls : localStorage) :
  order_exact ls ->
  (forall s, In s (listShoes ls) -> Shoe.id s <> "__proto__") ->
  exists shoes,
    Storage.getShoesOrdered ls = Normal (map VShoe shoes) ls
    /\ map Shoe.id shoes = getOrder ls
    /\ Permutation shoes (listShoes ls).
Proof.
  intros [Hnd Hperm] Hproto.
  assert (Hnd_order : NoDup (getOrder ls)) by now apply (Permutation_NoDup Hperm).
  assert (Hlisted : forall i, In i (getOrder ls) -> In i (map Shoe.id (listShoes ls))).
  { intros i Hi. now apply (Permutation_in _ (Permutation_sym Hperm)). }
  assert (Hcovered : forall s, In s (listShoes ls) -> In (Shoe.id s) (getOrder ls)).
  { intros s Hs. apply (Permutation_in _ Hperm). now apply in_map. }
  exists (flat_map (found (listShoes ls)) (getOrder ls)).
  split; [|split].
  - rewrite getShoesOrdered_eq. cbv zeta. unfold empty_object.
    rewrite (shoeMap_built (listShoes ls) []) by assumption.
    cbn [app]. rewrite place_loop_listed.
    + rewrite place_entries. cbn [fst snd app].
      rewrite (first_occurrences_NoDup _ Hnd_order), (unlisted_none _ _ Hcovered).
      cbn [map]. unfold Object_values. cbn. now rewrite app_nil_r.
    + exact Hnd_order.
    + intros i Hi. apply own_get_entries_listed. now apply Hlisted.
  - now apply map_id_flat_map_found.
  - pose proof (placed_and_unlisted (getOrder ls) (listShoes ls) Hnd) as H.
    rewrite (first_occurrences_NoDup _ Hnd_order), (unlisted_none _ _ Hcovered) in H.
    now rewrite app_nil_r in H.
Qed.

Lemma getShoesOrdered_follows_example :
  let a := Shoe.make "constructor" "Pegasus" false None "t1" in
  let b := Shoe.make "b2" "Ghost" false None "t2" in
  let ls := mkStorage (Some [a; b]) None (Some ["b2"; "constructor"]) in
  exists shoes,
    Storage.getShoesOrdered ls = Normal (map VShoe shoes) ls
    /\ map Shoe.id shoes = ["b2"; "constructor"].
Proof.
  intros a b ls.
  destruct (getShoesOrdered_follows_exact_order ls) as [shoes [H1 [H2 _]]].
  - split; cbn.
    + repeat constructor; cbn; intuition discriminate.
    + apply perm_swap.
  - intros s [<-|[<-|[]]]; discriminate.
  - exists shoes. split; [exact H1 | exact H2].
Defined.

Lemma flat_map_ext_on {A B} (f g : A -> list B) (l : list A) :
  (forall a, In a l -> f a = g a) -> flat_map f l = flat_map g l.
Proof.
  induction l as [|a r IH]; intro H; simpl; [reflexivity|].
  rewrite (H a (or_introl eq_refl)). f_equal. apply IH. intros x Hx. apply H. now right.
Qed.

Lemma flat_map_found_ids (l : list Shoe.t) :
  NoDup (map Shoe.id l) -> flat_map (found l) (map Shoe.id l) = l.
Proof.
  induction l as [|s r IH]; intro Hnd; simpl; [reflexivity|].
  inversion Hnd as [|? ? Hnotin Hnd']; subst.
  unfold found at 1. cbn [find]. rewrite String.eqb_refl. cbn [app]. f_equal.
  transitivity (flat_map (found r) (map Shoe.id r)); [|now apply IH].
  apply flat_map_ext_on. intros i Hi.
  unfold found. cbn [find].
  assert (Hs : (Shoe.id s =? i) = false).
  { apply String.eqb_neq. intros E. apply Hnotin. now rewrite E. }
  now rewrite Hs.
Qed.

(** X16.  When no order is stored, [getShoesOrdered] returns the shoes in
    storage order (ids distinct, none of them ["__proto__"]). *)
Theorem getShoesOrdered_without_stored_order (ls : localStorage) :
  shoe_order_item ls = None ->
  NoDup (map Shoe.id (listShoes ls)) ->
  (forall s, In s (listShoes ls) -> Shoe.id s <> "__proto__") ->
  Storage.getShoesOrdered ls = Normal (map VShoe (listShoes ls)) ls.
Proof.
  intros Hnone Hnd Hproto.
  assert (Horder : getOrder ls = map Shoe.id (listShoes ls)).
  { unfold getOrder. now rewrite Hnone. }
  rewrite getShoesOrdered_eq. cbv zeta. unfold empty_object.
  rewrite (shoeMap_built (listShoes ls) []) by assumption.
  cbn [app]. rewrite Horder, place_loop_listed.
  - rewrite place_entries. cbn [fst snd app].
    rewrite (first_occurrences_NoDup _ Hnd), (flat_map_found_ids _ Hnd).
    rewrite unlisted_none by (intros s Hs; now apply in_map).
    cbn [map]. unfold Object_values. cbn. now rewrite app_nil_r.
  - exact Hnd.
  - intros i Hi. now apply own_get_entries_listed.
Qed.

Lemma getShoesOrdered_without_stored_order_example :
  let a := Shoe.make "a1" "Pegasus" false None "t1" in
  let b := Shoe.make "b2" "Ghost" true None "t2" in
  let ls := mkStorage (Some [a; b]) None None in
  Storage.getShoesOrdered ls = Normal [VShoe a; VShoe b] ls.
Proof.
  intros a b ls. apply (getShoesOrdered_without_stored_order ls).
  - reflexivity.
  - cbn. repeat constructor; cbn; intuition discriminate.
  - intros s [<-|[<-|[]]]; discriminate.
Defined.

(** ** Workout ids *)

Lemma listWorkouts_ids_stored (l : list Workout.t) s o :
  map Workout.id (listWorkouts (mkStorage s (Some l) o)) = map Workout.id l.
Proof.
  unfold listWorkouts. cbn [workouts_item]. rewrite map_map. reflexivity.
Qed.

Lemma updateWorkout_ids (e : Env) (ls : localStorage) (id shoeId : string)
  (miles : argument) (date : string) :
  map Workout.id (listWorkouts (run (UpdateWorkout e id shoeId miles date) ls))
  = map Workout.id (listWorkouts ls).
Proof.
  cbn [run]. rewrite updateWorkout_eq. cbn [final].
  destruct (find (fun w => Workout.id w =? id) (listWorkouts ls)); [|reflexivity].
  rewrite listWorkouts_ids_stored. now apply map_assign_found.
Qed.

(** X19.  [updateWorkout] never adds or removes a record: the ids of the
    workouts, in order, are the same before and after, and so are the shoes
    and the order.  When some workout has the given id, [getWorkoutById] then
    returns a record with the new [shoeId] and [date], the [miles] given as a
    number, and [updatedAt] set. *)
Theorem updateWorkout_keeps_ids (e : Env) (ls : localStorage) (id shoeId : string)
  (miles : argument) (date : string) :
  map Workout.id (listWorkouts (run (UpdateWorkout e id shoeId miles date) ls))
  = map Workout.id (listWorkouts ls)
  /\ listShoes (run (UpdateWorkout e id shoeId miles date) ls) = listShoes ls
  /\ getOrder (run (UpdateWorkout e id shoeId miles date) ls) = getOrder ls
  /\ (In id (map Workout.id (listWorkouts ls)) ->
      exists w,
        Storage.getWorkoutById id (run (UpdateWorkout e id shoeId miles date) ls)
        = Normal (Some w) (run (UpdateWorkout e id shoeId miles date) ls)
        /\ Workout.id w = id
        /\ Workout.shoeId w = shoeId
        /\ Workout.date w = date
        /\ Workout.miles w = JSON_number (Num (parseFloat miles))
        /\ Workout.updatedAt w = Some (toISOString e)).
Proof.
  split; [apply updateWorkout_ids|].
  cbn [run]. rewrite updateWorkout_eq. cbn [final].
  destruct (find (fun w => Workout.id w =? id) (listWorkouts ls)) as [w0|] eqn:Hf.
  - split; [reflexivity|split; [reflexivity|]].
    + intros _. rewrite getWorkoutById_eq.
      unfold listWorkouts at 1. cbn [workouts_item].
      assert (Hfirst : exists before w after,
                 listWorkouts ls = before ++ w :: after
                 /\ (Workout.id w =? id) = true
                 /\ forall y, In y before -> (Workout.id y =? id) = false).
      { clear - Hf. induction (listWorkouts ls) as [|x l IH]; [discriminate|].
        cbn [find] in Hf. destruct (Workout.id x =? id) eqn:E.
        - exists [], x, l. split; [reflexivity|]. split; [exact E | intros y []].
        - destruct (IH Hf) as [b [w [a [H1 [H2 H3]]]]].
          exists (x :: b), w, a. split; [now rewrite H1|]. split; [exact H2|].
          intros y [<-|Hy]; [exact E | now apply H3]. }
      destruct Hfirst as [before [w [after [Hs [Hw Hb]]]]].
      rewrite Hs, (assign_found_split _ _ before after w Hb Hw).
      rewrite map_app. cbn [map].
      eexists. split.
      * f_equal. apply find_split.
        -- intros y Hy. apply in_map_iff in Hy. destruct Hy as [y0 [<- Hy0]].
           cbn [Workout.JSON_roundtrip Workout.id]. now apply Hb.
        -- cbn [Workout.JSON_roundtrip Workout.id]. exact Hw.
      * cbn [Workout.JSON_roundtrip Workout.id Workout.shoeId Workout.date
             Workout.miles Workout.updatedAt].
        apply String.eqb_eq in Hw. repeat split; try reflexivity. exact Hw.
  - split; [reflexivity|]. split; [reflexivity|].
    intro Hin. exfalso. apply in_map_iff in Hin. destruct Hin as [w [Hid Hw]].
    apply (proj1 (find_none_iff _ _) Hf) in Hw. apply String.eqb_neq in Hw. contradiction.
Qed.

Lemma updateWorkout_keeps_ids_example :
  let w1 := Workout.make "w1" "a1" (Num 3%float) "2024-01-01" "t1" None in
  let w2 := Workout.make "w2" "a1" (Num 5%float) "2024-01-02" "t2" None in
  let ls := mkStorage None (Some [w1; w2]) None in
  let ls' := run (UpdateWorkout (mkEnv "unused" "t3") "w1" "b2" 4%float "2024-02-02") ls in
  map Workout.id (listWorkouts ls') = ["w1"; "w2"]
  /\ exists w, Storage.getWorkoutById "w1" ls' = Normal (Some w) ls'
               /\ Workout.shoeId w = "b2".
Proof.
  intros w1 w2 ls ls'.
  destruct (updateWorkout_keeps_ids (mkEnv "unused" "t3") ls "w1" "b2" 4%float "2024-02-02")
    as [Hids [_ [_ Hget]]].
  split; [exact Hids|].
  destruct Hget as [w [H1 [_ [H2 _]]]]; [cbn; now left|].
  exists w. split; [exact H1 | exact H2].
Defined.

(** X20.  Workout ids stay pairwise distinct under every operation, as long
    as [addWorkout] draws an id no current workout has. *)
Theorem workout_ids_distinct_maintained (o : operation) (ls : localStorage) :
  fresh_workout_id o ls ->
  NoDup (map Workout.id (listWorkouts ls)) ->
  NoDup (map Workout.id (listWorkouts (run o ls))).
Proof.
  intros Hfresh Hnd.
  destruct o as [e name img|id|id|order|e sid miles date|e id sid miles date|id| ].
  - cbn [run]. rewrite addShoe_eq. destruct (existsb _ (listShoes ls)); exact Hnd.
  - cbn [run]. rewrite retireShoe_eq. cbn [final].
    destruct (find _ (listShoes ls)); exact Hnd.
  - cbn [run]. rewrite deleteShoe_eq. destruct (existsb _ (listWorkouts ls)); exact Hnd.
  - exact Hnd.
  - cbn [run]. rewrite addWorkout_eq. cbn [final].
    rewrite listWorkouts_pushed, map_app. cbn [map Workout.JSON_roundtrip Workout.id newWorkout].
    now apply NoDup_snoc.
  - now rewrite updateWorkout_ids.
  - cbn [run]. rewrite deleteWorkout_eq. cbn [final]. rewrite listWorkouts_ids_stored.
    rewrite <- (filter_map_id Workout.id (fun i => negb (i =? id))). now apply NoDup_filter.
  - constructor.
Qed.

Lemma workout_ids_distinct_example :
  let w1 := Workout.make "w1" "a1" (Num 3%float) "2024-01-01" "t1" None in
  let ls := mkStorage None (Some [w1]) None in
  NoDup (map Workout.id
           (listWorkouts (run (AddWorkout (mkEnv "w2" "t2") "a1" 5%float "2024-01-02") ls))).
Proof.
  intros w1 ls. apply workout_ids_distinct_maintained.
  - cbn. intuition discriminate.
  - cbn. repeat constructor. intros [].
Defined.

(** ** Facts about the text level *)

Module RawFacts.
Import Raw.

Lemma bounded_le {A} (p : parsed A) (n m : nat) : bounded p n -> n <= m -> bounded p m.
Proof. destruct p; simpl; intros; try lia; auto. Qed.

Lemma bounded_map {A B} (f : A -> B) (p : parsed A) (n : nat) :
  bounded p n -> bounded (parsed_map f p) n.
Proof. destruct p; simpl; auto. Qed.

Lemma skip_ws_le (s : string) : String.length (skip_ws s) <= String.length s.
Proof.
  induction s as [|c r IH]; simpl; [lia|]. destruct (is_ws c); simpl; lia.
Qed.

Lemma skip_ws_cons (s : string) (c : ascii) (r : string) :
  skip_ws s = String c r -> String.length r < String.length s.
Proof. intro H. pose proof (skip_ws_le s) as Hle. rewrite H in Hle. simpl in Hle. lia. Qed.

Lemma digits_le (s : string) : String.length (snd (digits s)) <= String.length s.
Proof.
  induction s as [|c r IH]; simpl; [lia|].
  destruct (is_digit c); simpl; [|lia].
  destruct (digits r) as [ds rest]. simpl in *. lia.
Qed.

Lemma digits1_bounded (s : string) : bounded (digits1 s) (String.length s).
Proof.
  unfold digits1. pose proof (digits_le s) as H.
  destruct (digits s) as [ds rest]. simpl in H. destruct ds; simpl; auto.
Qed.

Lemma after_length (word s rest : string) :
  after word s = Some rest -> String.length rest + String.length word = String.length s.
Proof.
  revert s. induction word as [|a w IH]; intros s H; simpl in *.
  - injection H as <-. lia.
  - destruct s as [|b r]; [discriminate|].
    destruct (a =? b)%char; [|discriminate]. simpl. apply IH in H. lia.
Qed.

Lemma token_lt (c : ascii) (s rest : string) :
  token c s = Some rest -> String.length rest < String.length s.
Proof.
  unfold token. intro H. apply after_length in H. pose proof (skip_ws_le s). simpl in H. lia.
Qed.

Lemma number_frac_bounded (s : string) : bounded (number_frac s) (String.length s).
Proof.
  unfold number_frac. destruct (after "." s) as [r|] eqn:H; [|simpl; lia].
  apply after_length in H. simpl in H.
  apply bounded_map. apply (bounded_le _ _ _ (digits1_bounded r)). lia.
Qed.

Lemma number_exp_bounded (s : string) : bounded (number_exp s) (String.length s).
Proof.
  destruct s as [|c r]; simpl; [lia|].
  destruct ((c =? "e") || (c =? "E"))%char; simpl; [|lia].
  destruct r as [|sign r']; simpl; auto.
  destruct ((sign =? "+") || (sign =? "-"))%char.
  - apply bounded_map. apply (bounded_le _ _ _ (digits1_bounded r')). lia.
  - apply bounded_map. apply (bounded_le _ _ _ (digits1_bounded (String sign r'))). simpl. lia.
Qed.

Lemma number_int_bounded (s : string) : bounded (number_int s) (pred (String.length s)).
Proof.
  destruct s as [|c r]; simpl; auto.
  destruct (c =? "0")%char; simpl; [lia|].
  destruct (is_digit c); simpl; auto.
  pose proof (digits_le r) as H. destruct (digits r) as [ds rest]. simpl in *. lia.
Qed.

Lemma number_bounded (s : string) : bounded (number s) (pred (String.length s)).
Proof.
  unfold number.
  assert (Hgen : forall sign s0, String.length s0 <= String.length s ->
            bounded
              match number_int s0 with
              | Parsed i s1 =>
                  match number_frac s1 with
                  | Parsed f s2 =>
                      match number_exp s2 with
                      | Parsed x s3 => Parsed (sign ++ i ++ f ++ x)%string s3
                      | other => other
                      end
                  | other => other
                  end
              | other => other
              end (pred (String.length s))).
  { intros sign s0 Hle.
    pose proof (number_int_bounded s0) as Hi.
    destruct (number_int s0) as [i s1| |]; simpl in *; auto.
    pose proof (number_frac_bounded s1) as Hf.
    destruct (number_frac s1) as [f s2| |]; simpl in *; auto.
    pose proof (number_exp_bounded s2) as Hx.
    destruct (number_exp s2) as [x s3| |]; simpl in *; auto. lia. }
  destruct (after "-" s) as [r|] eqn:H.
  - apply after_length in H. simpl in H. apply Hgen. lia.
  - apply Hgen. lia.
Qed.

Lemma keyword_bounded (word : string) (v : value) (s : string) :
  bounded (keyword word v s) (String.length s).
Proof.
  unfold keyword. destruct (after word s) as [rest|] eqn:H; simpl; auto.
  apply after_length in H. lia.
Qed.

Lemma string_body_bounded (s : string) : bounded (string_body s) (pred (String.length s)).
Proof.
  assert (H : forall n s, String.length s <= n -> bounded (string_body s) (pred (String.length s))).
  { clear s. induction n as [|n IH]; intros s Hn.
    - destruct s; [exact I | simpl in Hn; lia].
    - destruct s as [|c r]; [exact I|]. cbn [string_body String.length pred].
      simpl in Hn.
      destruct (c =? quote)%char; [simpl; lia|].
      destruct (c =? "\")%char.
      + destruct r as [|e r1]; [exact I|].
        destruct (escape e).
        * apply bounded_map. apply (bounded_le _ (pred (String.length r1))).
          -- apply IH. simpl in Hn. lia.
          -- simpl. lia.
        * destruct (e =? "u")%char; [|exact I].
          destruct r1 as [|h1 [|h2 [|h3 [|h4 r2]]]]; try exact I.
          destruct (hex4 h1 h2 h3 h4); [|exact I].
          apply bounded_map. apply (bounded_le _ (pred (String.length r2))).
          -- apply IH. simpl in Hn. lia.
          -- simpl. lia.
      + destruct (N_of_ascii c <? 32)%N; [exact I|].
        apply bounded_map. apply (bounded_le _ (pred (String.length r))).
        * apply IH. lia.
        * lia. }
  apply (H (String.length s)). lia.
Qed.

(** With fuel above twice the length of the text, the parser never runs out of fuel,
    and what it leaves is shorter than the text. *)
Lemma parse_fuel (fuel : nat) :
  (forall s, 2 * String.length s < fuel ->
             bounded (parse_value fuel s) (pred (String.length s)))
  /\ (forall s acc, 2 * String.length s + 1 < fuel ->
                    bounded (parse_elements fuel s acc) (pred (String.length s)))
  /\ (forall s acc, 2 * String.length s + 1 < fuel ->
                    bounded (parse_members fuel s acc) (pred (String.length s))).
Proof.
  induction fuel as [|fuel [IHv [IHe IHm]]].
  - repeat split; intros; lia.
  - split; [|split].
    + intros s Hf. cbn [parse_value].
      destruct (skip_ws s) as [|c r] eqn:Hs; [exact I|].
      apply skip_ws_cons in Hs.
      destruct (c =? "{")%char.
      { destruct (token "}" r) as [r'|] eqn:Ht.
        - apply token_lt in Ht. simpl. lia.
        - apply (bounded_le _ (pred (String.length r))); [apply IHm; lia | lia]. }
      destruct (c =? "[")%char.
      { destruct (token "]" r) as [r'|] eqn:Ht.
        - apply token_lt in Ht. simpl. lia.
        - apply (bounded_le _ (pred (String.length r))); [apply IHe; lia | lia]. }
      destruct (c =? quote)%char.
      { apply bounded_map. apply (bounded_le _ _ _ (string_body_bounded r)). lia. }
      destruct (c =? "t")%char.
      { apply (bounded_le _ _ _ (keyword_bounded _ _ r)). lia. }
      destruct (c =? "f")%char.
      { apply (bounded_le _ _ _ (keyword_bounded _ _ r)). lia. }
      destruct (c =? "n")%char.
      { apply (bounded_le _ _ _ (keyword_bounded _ _ r)). lia. }
      apply bounded_map. apply (bounded_le _ _ _ (number_bounded (String c r))). simpl. lia.
    + intros s acc Hf. cbn [parse_elements].
      pose proof (IHv s ltac:(lia)) as Hv.
      destruct (parse_value fuel s) as [v r| |]; [|exact I|exact Hv].
      simpl in Hv.
      destruct (token "," r) as [r'|] eqn:Ht.
      * apply token_lt in Ht.
        apply (bounded_le _ (pred (String.length r'))); [apply IHe; lia | lia].
      * destruct (token "]" r) as [r'|] eqn:Ht'; [|exact I].
        apply token_lt in Ht'. simpl. lia.
    + intros s acc Hf. cbn [parse_members].
      destruct (token quote s) as [r|] eqn:Hq; [|exact I].
      apply token_lt in Hq.
      pose proof (string_body_bounded r) as Hk.
      destruct (string_body r) as [k r1| |]; [|exact I|exact Hk].
      simpl in Hk.
      destruct (token ":" r1) as [r2|] eqn:Hc; [|exact I].
      apply token_lt in Hc.
      pose proof (IHv r2 ltac:(lia)) as Hv.
      destruct (parse_value fuel r2) as [v r3| |]; [|exact I|exact Hv].
      simpl in Hv.
      destruct (token "," r3) as [r4|] eqn:Ht.
      * apply token_lt in Ht.
        apply (bounded_le _ (pred (String.length r4))); [apply IHm; lia | lia].
      * destruct (token "}" r3) as [r4|] eqn:Ht'; [|exact I].
        apply token_lt in Ht'. simpl. lia.
Qed.

Lemma parse_value_fuel (text : string) :
  parse_value (2 * String.length text + 2) text <> OutOfFuel.
Proof.
  pose proof (proj1 (parse_fuel (2 * String.length text + 2)) text ltac:(lia)) as H.
  intro E. rewrite E in H. exact H.
Qed.

(** More fuel does not change a parse that had enough. *)
Lemma parse_fuel_mono (fuel : nat) :
  (forall s fuel', fuel <= fuel' -> parse_value fuel s <> OutOfFuel ->
                   parse_value fuel' s = parse_value fuel s)
  /\ (forall s acc fuel', fuel <= fuel' -> parse_elements fuel s acc <> OutOfFuel ->
                          parse_elements fuel' s acc = parse_elements fuel s acc)
  /\ (forall s acc fuel', fuel <= fuel' -> parse_members fuel s acc <> OutOfFuel ->
                          parse_members fuel' s acc = parse_members fuel s acc).
Proof.
  induction fuel as [|fuel [IHv [IHe IHm]]].
  - repeat split; intros; cbn in *; congruence.
  - split; [|split].
    + intros s [|fuel'] Hle Hne; [lia|]. apply le_S_n in Hle.
      cbn [parse_value] in *.
      destruct (skip_ws s) as [|c r]; [reflexivity|].
      destruct (c =? "{")%char.
      { destruct (token "}" r); [reflexivity | now apply IHm]. }
      destruct (c =? "[")%char.
      { destruct (token "]" r); [reflexivity | now apply IHe]. }
      reflexivity.
    + intros s acc [|fuel'] Hle Hne; [lia|]. apply le_S_n in Hle.
      cbn [parse_elements] in *.
      assert (Hv : parse_value fuel s <> OutOfFuel).
      { intro E. rewrite E in Hne. now apply Hne. }
      rewrite (IHv s fuel' Hle Hv).
      destruct (parse_value fuel s) as [v r| |]; try reflexivity.
      destruct (token "," r); [now apply IHe | reflexivity].
    + intros s acc [|fuel'] Hle Hne; [lia|]. apply le_S_n in Hle.
      cbn [parse_members] in *.
      destruct (token quote s) as [r|]; [|reflexivity].
      destruct (string_body r) as [k r1| |]; try reflexivity.
      destruct (token ":" r1) as [r2|]; [|reflexivity].
      assert (Hv : parse_value fuel r2 <> OutOfFuel).
      { intro E. rewrite E in Hne. now apply Hne. }
      rewrite (IHv r2 fuel' Hle Hv).
      destruct (parse_value fuel r2) as [v r3| |]; try reflexivity.
      destruct (token "," r3); [now apply IHm | reflexivity].
Qed.

(** The outcome of [JSON_parse] does not depend on the fuel it picks: any
    larger amount parses the text to the same result. *)
Lemma parse_value_fuel_independent (text : string) (fuel : nat) :
  2 * String.length text + 2 <= fuel ->
  parse_value fuel text = parse_value (2 * String.length text + 2) text.
Proof.
  intro Hle. apply (proj1 (parse_fuel_mono _)); [exact Hle | apply parse_value_fuel].
Qed.




(** ** Writing and reading back *)

Lemma string_body_quote_char (c : ascii) (body : string) (k : list N) (rest : string) :
  string_body body = Parsed k rest ->
  string_body (quote_char_onto c body) = Parsed (N_of_ascii c :: k) rest.
Proof.
  intro H.
  destruct c as [[] [] [] [] [] [] [] []]; cbn; rewrite H; reflexivity.
Qed.

(** Reading back the characters that [JSON.stringify] wrote for a string. *)
Lemma string_body_quote_body (s rest : string) :
  string_body (quote_body_onto s rest) = Parsed (units_of s) rest.
Proof.
  induction s as [|c r IH]; [reflexivity|].
  cbn [quote_body_onto units_of]. now apply string_body_quote_char.
Qed.

Lemma parse_value_quote (fuel : nat) (s rest : string) :
  parse_value (S fuel) (JSON_quote_onto s rest) = Parsed (VString (units_of s)) rest.
Proof.
  unfold JSON_quote_onto. cbn. now rewrite string_body_quote_body.
Qed.

Lemma parse_elements_more (fuel : nat) (text : string) (v : value) (more : string)
  (acc : list value) :
  parse_value fuel text = Parsed v (String "," more) ->
  parse_elements (S fuel) text acc = parse_elements fuel more (v :: acc).
Proof. intro H. cbn [parse_elements]. rewrite H. reflexivity. Qed.

Lemma parse_elements_last (fuel : nat) (text : string) (v : value) (rest : string)
  (acc : list value) :
  parse_value fuel text = Parsed v (String "]" rest) ->
  parse_elements (S fuel) text acc = Parsed (VArray (rev (v :: acc))) rest.
Proof. intro H. cbn [parse_elements]. rewrite H. reflexivity. Qed.

Lemma parse_members_more (fuel : nat) (k : string) (text_onto : string -> string)
  (v : value) (more : string) (acc : list (list N * value)) :
  (forall rest, parse_value fuel (text_onto rest) = Parsed v rest) ->
  parse_members (S fuel) (JSON_quote_onto k (String ":" (text_onto (String "," more)))) acc
  = parse_members fuel more ((units_of k, v) :: acc).
Proof.
  intro H. cbn [parse_members]. unfold JSON_quote_onto.
  change (token quote (String quote ?body)) with (Some body).
  cbv beta iota. rewrite string_body_quote_body.
  change (token ":" (String ":" ?text)) with (Some text).
  cbv beta iota. rewrite H. reflexivity.
Qed.

Lemma parse_members_last (fuel : nat) (k : string) (text_onto : string -> string)
  (v : value) (rest : string) (acc : list (list N * value)) :
  (forall rest, parse_value fuel (text_onto rest) = Parsed v rest) ->
  parse_members (S fuel) (JSON_quote_onto k (String ":" (text_onto (String "}" rest)))) acc
  = Parsed (VObject (rev ((units_of k, v) :: acc))) rest.
Proof.
  intro H. cbn [parse_members]. unfold JSON_quote_onto.
  change (token quote (String quote ?body)) with (Some body).
  cbv beta iota. rewrite string_body_quote_body.
  change (token ":" (String ":" ?text)) with (Some text).
  cbv beta iota. rewrite H. reflexivity.
Qed.

(** The elements of an array, each of which parses back with [bound] fuel. *)
Lemma parse_elements_separated {A} (text_onto : A -> string -> string) (val : A -> value)
  (bound : nat) (l : list A) :
  (forall x rest fuel, bound <= fuel -> parse_value fuel (text_onto x rest) = Parsed (val x) rest) ->
  l <> [] ->
  forall rest acc fuel,
    bound + List.length l <= fuel ->
    parse_elements fuel (separated_onto text_onto l (String "]" rest)) acc
    = Parsed (VArray (rev acc ++ map val l)) rest.
Proof.
  intros Hx. induction l as [|x r IH]; intros Hne rest acc fuel Hfuel; [contradiction|].
  destruct fuel as [|fuel]; [cbn in Hfuel; lia|]. cbn [List.length] in Hfuel.
  destruct r as [|y r'].
  - cbn [separated_onto map]. rewrite (parse_elements_last fuel _ (val x) rest).
    + reflexivity.
    + apply Hx. lia.
  - change (separated_onto text_onto (x :: y :: r') (String "]" rest))
      with (text_onto x (String "," (separated_onto text_onto (y :: r') (String "]" rest)))).
    rewrite (parse_elements_more fuel _ (val x)
               (separated_onto text_onto (y :: r') (String "]" rest))).
    + rewrite IH; [|discriminate|lia]. cbn [rev map]. now rewrite <- app_assoc.
    + apply Hx. lia.
Qed.

(** An array whose elements start with neither white space nor a closing
    bracket. *)
Lemma parse_value_array {A} (text_onto : A -> string -> string) (val : A -> value)
  (bound : nat) (l : list A) (rest : string) (fuel : nat) :
  (forall x rest fuel, bound <= fuel -> parse_value fuel (text_onto x rest) = Parsed (val x) rest) ->
  (forall x rest, token "]" (text_onto x rest) = None) ->
  bound + List.length l <= fuel ->
  parse_value (S fuel) (String "[" (separated_onto text_onto l (String "]" rest)))
  = Parsed (VArray (map val l)) rest.
Proof.
  intros Hx Hstart Hfuel. cbn [parse_value skip_ws is_ws].
  change (is_ws "[") with false. cbv iota.
  change (("[" =? "{")%char) with false. change (("[" =? "[")%char) with true. cbv iota.
  destruct l as [|x r].
  - reflexivity.
  - assert (Ht : token "]" (separated_onto text_onto (x :: r) (String "]" rest)) = None).
    { destruct r; cbn [separated_onto]; apply Hstart. }
    rewrite Ht. now apply (parse_elements_separated text_onto val bound).
Qed.

(** Whatever fuel parses a text, the fuel [JSON_parse] picks does too. *)
Lemma JSON_parse_of_parse_value (fuel : nat) (text : string) (v : value) :
  parse_value fuel text = Parsed v EmptyString -> JSON_parse text = Return v.
Proof.
  intro H. unfold JSON_parse.
  assert (E : parse_value (2 * String.length text + 2) text = Parsed v EmptyString).
  { assert (Hcases : fuel <= 2 * String.length text + 2
                     \/ 2 * String.length text + 2 <= fuel) by lia.
    destruct Hcases as [Hle|Hgt].
    - rewrite (proj1 (parse_fuel_mono fuel) text _ Hle); [exact H|]. now rewrite H.
    - rewrite <- H. symmetry.
      apply (proj1 (parse_fuel_mono _) text fuel); [exact Hgt | apply parse_value_fuel]. }
  now rewrite E.
Qed.

Lemma JSON_parse_stringify_order (order : list string) :
  JSON_parse (JSON_stringify_order order) = Return (order_value order).
Proof.
  apply (JSON_parse_of_parse_value (S (1 + List.length order))).
  unfold JSON_stringify_order, order_value.
  apply (parse_value_array JSON_quote_onto (fun s => VString (units_of s)) 1).
  - intros s rest [|fuel] Hf; [lia|]. apply parse_value_quote.
  - reflexivity.
  - lia.
Qed.

Lemma parse_value_shoe (s : Shoe.t) (rest : string) (fuel : nat) :
  7 <= fuel ->
  parse_value fuel (JSON_stringify_shoe_onto s rest) = Parsed (shoe_value s) rest.
Proof.
  intro Hf. do 7 (destruct fuel as [|fuel]; [lia|]). clear Hf.
  unfold JSON_stringify_shoe_onto, shoe_members, shoe_value.
  cbn [separated_onto]. unfold member_onto. cbn [fst snd].
  cbn [parse_value skip_ws]. change (is_ws "{") with false. cbv iota.
  change (("{" =? "{")%char) with true. cbv iota.
  change (token "}" (JSON_quote_onto "id" ?x)) with (@None string).
  rewrite (parse_members_more _ "id" (JSON_quote_onto (Shoe.id s))
             (VString (units_of (Shoe.id s))))
    by (intro; apply parse_value_quote).
  rewrite (parse_members_more _ "name" (JSON_quote_onto (Shoe.name s))
             (VString (units_of (Shoe.name s))))
    by (intro; apply parse_value_quote).
  rewrite (parse_members_more _ "retired"
             (append (if Shoe.retired s then "true" else "false"))
             (VBool (Shoe.retired s)))
    by (intro; destruct (Shoe.retired s); reflexivity).
  rewrite (parse_members_more _ "imageData"
             (match Shoe.imageData s with
              | Some d => JSON_quote_onto d
              | None => append "null"
              end)
             (match Shoe.imageData s with
              | Some d => VString (units_of d)
              | None => VNull
              end))
    by (intro; destruct (Shoe.imageData s); [apply parse_value_quote | reflexivity]).
  rewrite (parse_members_last _ "createdAt" (JSON_quote_onto (Shoe.createdAt s))
             (VString (units_of (Shoe.createdAt s))))
    by (intro; apply parse_value_quote).
  reflexivity.
Qed.

Lemma JSON_parse_stringify_shoes (shoes : list Shoe.t) :
  JSON_parse (JSON_stringify_shoes shoes) = Return (VArray (map shoe_value shoes)).
Proof.
  apply (JSON_parse_of_parse_value (S (7 + List.length shoes))).
  unfold JSON_stringify_shoes.
  apply (parse_value_array JSON_stringify_shoe_onto shoe_value 7).
  - intros s rest fuel Hf. now apply parse_value_shoe.
  - reflexivity.
  - lia.
Qed.

Lemma units_of_inj (a b : string) : units_of a = units_of b -> a = b.
Proof.
  revert b. induction a as [|c r IH]; intros [|d r'] H; try discriminate; [reflexivity|].
  cbn in H. injection H as Hc Hr. f_equal; [|now apply IH].
  rewrite <- (ascii_N_embedding c), <- (ascii_N_embedding d). now rewrite Hc.
Qed.

Lemma shoe_value_inj (s s' : Shoe.t) : shoe_value s = shoe_value s' -> s = s'.
Proof.
  destruct s as [i n r d c], s' as [i' n' r' d' c']. unfold shoe_value. cbn.
  intro H. injection H as Hi Hn Hr Hd Hc.
  apply units_of_inj in Hi, Hn, Hc. subst.
  destruct d as [d|], d' as [d'|]; try discriminate; [|reflexivity].
  injection Hd as Hd. apply units_of_inj in Hd. now subst.
Qed.

Lemma map_shoe_value_inj (shoes shoes' : list Shoe.t) :
  map shoe_value shoes = map shoe_value shoes' -> shoes = shoes'.
Proof.
  revert shoes'. induction shoes as [|s r IH]; intros [|s' r'] H;
    try discriminate; [reflexivity|].
  cbn [map] in H.
  remember (shoe_value s) as v eqn:Ev. remember (shoe_value s') as v' eqn:Ev'.
  injection H as Hs Hr. subst v v'.
  f_equal; [now apply shoe_value_inj | now apply IH].
Qed.

Lemma get_id_shoe_value (s : Shoe.t) :
  get_id (shoe_value s) = Return (VString (units_of (Shoe.id s))).
Proof. reflexivity. Qed.

Lemma map_id_shoe_values (shoes : list Shoe.t) :
  map_id (map shoe_value shoes)
  = Return (map (fun i => VString (units_of i)) (map Shoe.id shoes)).
Proof.
  induction shoes as [|s r IH]; [reflexivity|].
  cbn [map map_id]. now rewrite get_id_shoe_value, IH.
Qed.

(** X17.  An order that was saved is read back as saved: for every store
    and every array of strings, whatever characters they hold,
    [getShoeOrder] after [saveShoeOrder(order)] returns the array of the same
    strings, and the shoes and workouts read as before. *)
Theorem saveShoeOrder_getShoeOrder_roundtrip (ls : localStorage) (order : list string) :
  getShoeOrder (saveShoeOrder ls order) = Return (order_value order)
  /\ getShoes (saveShoeOrder ls order) = getShoes ls
  /\ getWorkouts (saveShoeOrder ls order) = getWorkouts ls.
Proof.
  split; [|split; reflexivity].
  unfold getShoeOrder, saveShoeOrder, setItem. rewrite String.eqb_refl.
  unfold JSON_stringify_order at 1. fold (JSON_stringify_order order).
  apply JSON_parse_stringify_order.
Qed.

(** X18.  Shoes that were saved are read back as saved: for every store and
    every array of shoes, [getShoes] after [saveShoes(shoes)] returns the
    array of objects with the five properties of each shoe, from which the
    shoes can be told apart; and while no order is stored, [getShoeOrder]
    returns their ids in the same order. *)
Theorem saveShoes_getShoes_roundtrip (ls : localStorage) (shoes : list Shoe.t) :
  getShoes (saveShoes ls shoes) = Return (VArray (map shoe_value shoes))
  /\ (forall shoes', map shoe_value shoes = map shoe_value shoes' -> shoes = shoes')
  /\ (ls SHOE_ORDER = None ->
      getShoeOrder (saveShoes ls shoes) = Return (order_value (map Shoe.id shoes))).
Proof.
  assert (Hread : getShoes (saveShoes ls shoes) = Return (VArray (map shoe_value shoes))).
  { unfold getShoes, saveShoes, setItem. rewrite String.eqb_refl.
    unfold parse_or_empty, JSON_stringify_shoes at 1. fold (JSON_stringify_shoes shoes).
    apply JSON_parse_stringify_shoes. }
  split; [exact Hread|]. split.
  - apply map_shoe_value_inj.
  - intro Hnone. unfold getShoeOrder. rewrite Hread.
    unfold saveShoes at 1, setItem. change (SHOE_ORDER =? SHOES) with false.
    cbv iota. rewrite Hnone. unfold shoes_map_id. now rewrite map_id_shoe_values.
Qed.

Lemma saveShoes_getShoes_example :
  let a := Shoe.make "a1" "Pegasus" true None "t1" in
  let b := Shoe.make "b2" "Ghost" false (Some "data:image/png;base64,AAAA") "t2" in
  getShoes (saveShoes (fun _ => None) [a; b]) = Return (VArray [shoe_value a; shoe_value b])
  /\ getShoeOrder (saveShoes (fun _ => None) [a; b]) = Return (order_value ["a1"; "b2"]).
Proof.
  intros a b.
  destruct (saveShoes_getShoes_roundtrip (fun _ => None) [a; b]) as [H1 [_ H2]].
  split; [exact H1 | exact (H2 eq_refl)].
Defined.

End RawFacts.
